(** * A trading account ledger: shallow embedding of [accounts.py]

    The development follows the module top to bottom: the exception classes,
    the price helper [get_share_price], the [Transaction] record and the
    [Account] class with its four mutating methods and its reporting queries.

    Conventions of the embedding.
    - Amounts are Python [float]s, as the signatures and the [Transaction]
      dataclass annotate them, that is IEEE 754 binary64 numbers: the
      primitive type [float] with its operations, rounding to nearest even,
      infinities and NaN included. Quantities are Python [int]s, unbounded:
      [Z]. A product [price * quantity] of a [float] by an [int] first
      converts the [int], which raises [OverflowError] when it is too large.
    - An exception is its class and its message.
    - A method is a computation in a state-and-exception monad over the
      account object: a raised exception leaves whatever was mutated before
      the [raise] in place, as in Python, so "no state change on failure" is
      a property to be proved and not one of the encoding.
    - [self.holdings] is a [dict]: an association list in insertion order,
      the order its [items()] are visited in.
    - [datetime.now()] is the argument [now] of each mutating method.
    - The module-level name [get_share_price] is looked up at call time (the
      test-suite patches it), so the methods that call it take the binding of
      that name, a function of the symbol, as an argument; the program itself
      runs them with [get_share_price]. *)

From Stdlib Require Import ZArith Lia Floats Uint63.
From stdpp Require Import base option list strings pretty gmap fin_maps sorting.

Local Open Scope string_scope.
Local Open Scope list_scope.
Local Open Scope Z_scope.

(** ** Exceptions

    The classes of the module and the built-in ones its code can meet, each
    with the message it is raised with. *)

Inductive Exn : Type :=
  | ValueError (msg : string)
  | KeyError (key : string)
  | OverflowError (msg : string)
  | InsufficientFundsError (msg : string)
  | InsufficientSharesError (msg : string)
  | InvalidSymbolError (msg : string).

Inductive Outcome (A : Type) : Type :=
  | Return (a : A)
  | Raise (e : Exn).
Arguments Return {A} a.
Arguments Raise {A} e.

(** ** Numbers *)

(** [float(n)] for an [int]: the nearest binary64 number, ties to even, and
    [OverflowError] when that is beyond the largest finite one. *)
Definition float_of_int (n : Z) : Outcome float :=
  match binary_normalize prec emax n 0 false with
  | S754_infinity _ => Raise (OverflowError "int too large to convert to float")
  | x => Return (SF2Prim x)
  end.

(** [x * n] for a [float] and an [int]. *)
Definition float_mul_int (x : float) (n : Z) : Outcome float :=
  match float_of_int n with
  | Return y => Return (x * y)%float
  | Raise e => Raise e
  end.

(** ** Dictionaries with [str] keys and [int] values

    Entries in insertion order. Assigning to a key that is present keeps
    its place, assigning to a new key appends, deleting removes. A [dict]
    holds a key at most once ([dict_wf]). *)

Abbreviation dict := (list (string * Z)).

Definition dict_wf (d : dict) : Prop := NoDup d.*1.

Fixpoint dict_lookup (key : string) (d : dict) : option Z :=
  match d with
  | [] => None
  | (k, v) :: d => if decide (k = key) then Some v else dict_lookup key d
  end.

Definition dict_set (key : string) (v : Z) (d : dict) : dict :=
  match dict_lookup key d with
  | Some _ => (λ kv, if decide (kv.1 = key) then (key, v) else kv) <$> d
  | None => d ++ [(key, v)]
  end.

Definition dict_del (key : string) (d : dict) : dict :=
  filter (λ kv, kv.1 ≠ key) d.

(** ** The price helper *)

Definition prices : gmap string float :=
  {[ "AAPL" := 150%float; "TSLA" := 250%float; "GOOGL" := 130%float ]}.

Definition get_share_price (symbol : string) : Outcome float :=
  match prices !! symbol with
  | None => Raise (InvalidSymbolError ("Invalid symbol: " +:+ symbol))
  | Some price => Return price
  end.

(** ** Data structures *)

Inductive TransactionType : Type := DEPOSIT | WITHDRAW | BUY | SELL.

Definition datetime := Z.
Bind Scope Z_scope with datetime.

Record Transaction : Type := mkTransaction {
  timestamp : datetime;
  type : TransactionType;
  amount : float;
  symbol : option string;
  quantity : option Z;
  share_price : option float
}.

Record Account : Type := mkAccount {
  account_id : string;
  user_name : string;
  cash_balance : float;
  total_deposits : float;
  holdings : dict;
  transactions : list Transaction
}.

(** [Account.__init__] *)
Definition init (account_id user_name : string) : Account :=
  mkAccount account_id user_name 0%float 0%float [] [].

(** Attribute assignment, one function per attribute the methods assign. *)
Definition set_cash_balance (v : float) (a : Account) : Account :=
  mkAccount (account_id a) (user_name a) v (total_deposits a) (holdings a) (transactions a).
Definition set_total_deposits (v : float) (a : Account) : Account :=
  mkAccount (account_id a) (user_name a) (cash_balance a) v (holdings a) (transactions a).
Definition set_holdings (v : dict) (a : Account) : Account :=
  mkAccount (account_id a) (user_name a) (cash_balance a) (total_deposits a) v (transactions a).
Definition set_transactions (v : list Transaction) (a : Account) : Account :=
  mkAccount (account_id a) (user_name a) (cash_balance a) (total_deposits a) (holdings a) v.

(** ** The method monad: state of [self], and exceptions that keep it *)

Definition M (A : Type) : Type := Account → Outcome A * Account.

Global Instance M_ret : MRet M := λ A x self, (Return x, self).
Global Instance M_bind : MBind M := λ A B f m self,
  match m self with
  | (Return x, self') => f x self'
  | (Raise e, self') => (Raise e, self')
  end.

Definition raise {A} (e : Exn) : M A := λ self, (Raise e, self).
Definition read {A} (f : Account → A) : M A := λ self, (Return (f self), self).
Definition assign (f : Account → Account) : M unit := λ self, (Return tt, f self).
Definition call {A} (r : Outcome A) : M A := λ self, (r, self).

(** [try: body except InvalidSymbolError: handler] *)
Definition try_except_InvalidSymbolError {A} (body handler : M A) : M A := λ self,
  match body self with
  | (Raise (InvalidSymbolError _), self') => handler self'
  | r => r
  end.

(** [d[key]] and [d.get(key, default)] on the holdings dictionary *)
Definition getitem (key : string) : M Z := λ self,
  match dict_lookup key (holdings self) with
  | Some v => (Return v, self)
  | None => (Raise (KeyError key), self)
  end.
Definition get (key : string) (dflt : Z) : M Z :=
  read (λ self, default dflt (dict_lookup key (holdings self))).
Arguments get key dflt%_Z.

(** ** The methods *)

Definition _record_transaction (now : datetime) (transaction_type : TransactionType)
    (amount : float) (symbol : option string) (quantity : option Z)
    (share_price : option float) : M unit :=
  let transaction :=
    mkTransaction now transaction_type amount symbol quantity share_price in
  assign (λ self, set_transactions (transactions self ++ [transaction]) self).

Definition deposit (now : datetime) (amount : float) : M unit :=
  if (amount <=? 0)%float
  then raise (ValueError "Deposit amount must be positive.") else
  assign (λ self, set_cash_balance (cash_balance self + amount)%float self);;
  assign (λ self, set_total_deposits (total_deposits self + amount)%float self);;
  _record_transaction now DEPOSIT amount None None None.

Definition withdraw (now : datetime) (amount : float) : M unit :=
  if (amount <=? 0)%float
  then raise (ValueError "Withdrawal amount must be positive.") else
  cash ← read cash_balance;
  if (cash <? amount)%float
  then raise (InsufficientFundsError
                "Cannot withdraw more than the available cash balance.") else
  assign (λ self, set_cash_balance (cash_balance self - amount)%float self);;
  _record_transaction now WITHDRAW (- amount)%float None None None.

Section Priced.
(** The binding of the module-level name [get_share_price] at call time. *)
Variable share_price_of : string → Outcome float.

Definition buy (now : datetime) (symbol : string) (quantity : Z) : M unit :=
  if decide (quantity ≤ 0)
  then raise (ValueError "Quantity to buy must be a positive integer.") else
  price ← call (share_price_of symbol);
  total_cost ← call (float_mul_int price quantity);
  cash ← read cash_balance;
  if (cash <? total_cost)%float
  then raise (InsufficientFundsError
                ("Insufficient funds to buy " +:+ pretty quantity +:+
                 " shares of " +:+ symbol +:+ ".")) else
  assign (λ self, set_cash_balance (cash_balance self - total_cost)%float self);;
  held ← get symbol 0;
  assign (λ self, set_holdings (dict_set symbol (held + quantity) (holdings self)) self);;
  _record_transaction now BUY (- total_cost)%float (Some symbol) (Some quantity) (Some price).

Definition sell (now : datetime) (symbol : string) (quantity : Z) : M unit :=
  if decide (quantity ≤ 0)
  then raise (ValueError "Quantity to sell must be a positive integer.") else
  current_quantity ← get symbol 0;
  if decide (current_quantity < quantity)
  then raise (InsufficientSharesError
                ("Not enough shares to sell " +:+ pretty quantity +:+ " of " +:+
                 symbol +:+ ". You only have " +:+ pretty current_quantity +:+ "."))
  else
  price ← call (share_price_of symbol);
  total_sale_value ← call (float_mul_int price quantity);
  assign (λ self, set_cash_balance (cash_balance self + total_sale_value)%float self);;
  held ← getitem symbol;
  assign (λ self, set_holdings (dict_set symbol (held - quantity) (holdings self)) self);;
  remaining ← getitem symbol;
  (if decide (remaining = 0)
   then assign (λ self, set_holdings (dict_del symbol (holdings self)) self)
   else mret tt);;
  _record_transaction now SELL total_sale_value (Some symbol) (Some quantity) (Some price).

(** The loop of [get_portfolio_value] over [self.holdings.items()], with
    the accumulator [holdings_value]. *)
Fixpoint holdings_loop (items : list (string * Z)) (holdings_value : float) : M float :=
  match items with
  | [] => mret holdings_value
  | (symbol, quantity) :: items =>
      holdings_value ←
        try_except_InvalidSymbolError
          (price ← call (share_price_of symbol);
           value ← call (float_mul_int price quantity);
           mret (holdings_value + value)%float)
          (mret holdings_value);
      holdings_loop items holdings_value
  end.

Definition get_portfolio_value : M float :=
  items ← read holdings;
  holdings_value ← holdings_loop items 0%float;
  cash ← read cash_balance;
  mret (cash + holdings_value)%float.

Definition get_profit_loss : M float :=
  current_value ← get_portfolio_value;
  deposits ← read total_deposits;
  mret (current_value - deposits)%float.
End Priced.

(** ** Sequences of calls

    The caller ([app.py]) issues the four mutating calls one after the
    other and catches whatever one raises; the account object lives on. *)

Inductive Op : Type :=
  | Deposit (amount : float)
  | Withdraw (amount : float)
  | Buy (symbol : string) (quantity : Z)
  | Sell (symbol : string) (quantity : Z).

Definition step (now : datetime) (o : Op) : M unit :=
  match o with
  | Deposit amount => deposit now amount
  | Withdraw amount => withdraw now amount
  | Buy symbol quantity => buy get_share_price now symbol quantity
  | Sell symbol quantity => sell get_share_price now symbol quantity
  end.

Definition succeeds {A} (r : Outcome A * Account) : bool :=
  match r with (Return _, _) => true | (Raise _, _) => false end.

(** The account after a sequence of timestamped calls, and the number of
    calls of the sequence that returned normally. *)
Fixpoint run (calls : list (datetime * Op)) (a : Account) : Account :=
  match calls with
  | [] => a
  | (now, o) :: calls => run calls (step now o a).2
  end.

Fixpoint completed (calls : list (datetime * Op)) (a : Account) : nat :=
  match calls with
  | [] => 0%nat
  | (now, o) :: calls =>
      ((if succeeds (step now o a) then 1 else 0) + completed calls (step now o a).2)%nat
  end.

Inductive reachable : Account → Prop :=
  | reachable_init account_id user_name : reachable (init account_id user_name)
  | reachable_step now o a : reachable a → reachable (step now o a).2.

(** The invariants of the data model. *)
Definition holdings_positive (a : Account) : Prop :=
  ∀ symbol quantity, dict_lookup symbol (holdings a) = Some quantity → 0 < quantity.

(** Every held symbol is one the price helper knows. *)
Definition holdings_priced (a : Account) : Prop :=
  ∀ symbol, is_Some (dict_lookup symbol (holdings a)) → is_Some (prices !! symbol).

(** ** Validation, as the code evaluates it

    The failure a call meets on account [a], if any, each check in the
    order of the method: a non-positive amount or quantity, an unknown
    symbol, a quantity too large to convert to a [float], a cost (the
    binary64 product of the price and the converted quantity) above the
    cash balance, fewer shares held than requested. *)
Definition rejection (o : Op) (a : Account) : option Exn :=
  match o with
  | Deposit amount =>
      if (amount <=? 0)%float
      then Some (ValueError "Deposit amount must be positive.") else None
  | Withdraw amount =>
      if (amount <=? 0)%float
      then Some (ValueError "Withdrawal amount must be positive.")
      else if (cash_balance a <? amount)%float
      then Some (InsufficientFundsError
                   "Cannot withdraw more than the available cash balance.")
      else None
  | Buy symbol quantity =>
      if decide (quantity ≤ 0)
      then Some (ValueError "Quantity to buy must be a positive integer.") else
      match prices !! symbol with
      | None => Some (InvalidSymbolError ("Invalid symbol: " +:+ symbol))
      | Some price =>
          match float_of_int quantity with
          | Raise e => Some e
          | Return fq =>
              if (cash_balance a <? price * fq)%float
              then Some (InsufficientFundsError
                           ("Insufficient funds to buy " +:+ pretty quantity +:+
                            " shares of " +:+ symbol +:+ "."))
              else None
          end
      end
  | Sell symbol quantity =>
      if decide (quantity ≤ 0)
      then Some (ValueError "Quantity to sell must be a positive integer.") else
      let owned := default 0 (dict_lookup symbol (holdings a)) in
      if decide (owned < quantity)
      then Some (InsufficientSharesError
                   ("Not enough shares to sell " +:+ pretty quantity +:+ " of " +:+
                    symbol +:+ ". You only have " +:+ pretty owned +:+ "."))
      else
      match prices !! symbol with
      | None => Some (InvalidSymbolError ("Invalid symbol: " +:+ symbol))
      | Some _ =>
          match float_of_int quantity with
          | Raise e => Some e
          | Return _ => None
          end
      end
  end.

(** ** Valuation, as a sum

    The value of the holdings: starting from [total], the binary64 sum, in
    the order of the entries, of price times converted quantity; an entry
    whose symbol has no price is skipped, and a quantity that does not
    convert ends the sum with its [OverflowError]. *)
Fixpoint holdings_value_from (total : float) (d : dict) : Outcome float :=
  match d with
  | [] => Return total
  | (symbol, quantity) :: d =>
      match prices !! symbol with
      | None => holdings_value_from total d
      | Some price =>
          match float_of_int quantity with
          | Raise e => Raise e
          | Return fq => holdings_value_from (total + price * fq)%float d
          end
      end
  end.

(** The price helper as [test_get_profit_loss] patches it: a dictionary
    indexed by the symbol, with the price of AAPL moved. *)
Definition patched_share_price (aapl : float) (symbol : string) : Outcome float :=
  match ({[ "AAPL" := aapl; "TSLA" := 250%float ]} : gmap string float) !! symbol with
  | Some price => Return price
  | None => Raise (KeyError symbol)
  end.

(** The number a finite [float] stands for, as mantissa and binary
    exponent, [m * 2 ^ e]; [float_is x n] when that number is the integer
    [n]. *)
Definition mantissa_exponent (x : float) : option (Z * Z) :=
  match Prim2SF x with
  | S754_zero _ => Some (0, 0)
  | S754_finite s m e => Some (cond_Zopp s (Z.pos m), e)
  | _ => None
  end.

Definition float_is (x : float) (n : Z) : Prop :=
  match mantissa_exponent x with
  | Some (m, e) => m * 2 ^ Z.max e 0 = n * 2 ^ Z.max (- e) 0
  | None => False
  end.

(** [1e308], written as Python prints the nearest [float]. *)
Definition float_1e308 : float := 0x1.1ccf385ebc8ap+1023%float.

(** ** The account as Python objects

    The methods above work on the values of the account's attributes, which
    is sound as long as nobody else holds a reference to the two
    collections. The reporting queries hand objects to the caller, so for
    them the store is explicit: [self.holdings] refers to a dict object,
    [self.transactions] to a list object whose elements refer to
    [Transaction] objects (a plain, unfrozen dataclass: its fields can be
    assigned). Strings, numbers and enum members are immutable and stay
    values. *)

Module Objects.

Abbreviation loc := nat (only parsing).

Inductive object : Type :=
  | Dict (d : dict)
  | List (l : list loc)
  | TransactionObject (t : Transaction)
  | Foreign (repr : string).

Abbreviation store := (gmap loc object) (only parsing).

Record AccountObject : Type := mkAccountObject {
  self_account_id : string;
  self_user_name : string;
  self_cash_balance : float;
  self_total_deposits : float;
  self_holdings : loc;
  self_transactions : loc
}.

Definition as_dict (o : object) : option dict :=
  match o with Dict d => Some d | _ => None end.
Definition as_list (o : object) : option (list loc) :=
  match o with List l => Some l | _ => None end.
Definition as_transaction (o : object) : option Transaction :=
  match o with TransactionObject t => Some t | _ => None end.

Fixpoint records (h : store) (l : list loc) : option (list Transaction) :=
  match l with
  | [] => Some []
  | x :: l =>
      t ← h !! x ≫= as_transaction;
      ts ← records h l;
      Some (t :: ts)
  end.

(** The state of the account in a store: what its attributes refer to,
    followed down to values. Every method and query result of the account
    is a function of it. *)
Definition state (h : store) (self : AccountObject) : option Account :=
  d ← h !! self_holdings self ≫= as_dict;
  l ← h !! self_transactions self ≫= as_list;
  ts ← records h l;
  Some (mkAccount (self_account_id self) (self_user_name self)
          (self_cash_balance self) (self_total_deposits self) d ts).

(** [d.copy()] and [l.copy()]: a new object with the same entries. *)
Definition dict_copy (r : loc) (h : store) : option (loc * store) :=
  d ← h !! r ≫= as_dict;
  let r' := fresh (dom h) in Some (r', <[r' := Dict d]> h).

Definition list_copy (r : loc) (h : store) : option (loc * store) :=
  l ← h !! r ≫= as_list;
  let r' := fresh (dom h) in Some (r', <[r' := List l]> h).

Definition get_holdings (self : AccountObject) (h : store) : option (loc * store) :=
  dict_copy (self_holdings self) h.

Definition get_transactions (self : AccountObject) (h : store) : option (loc * store) :=
  list_copy (self_transactions self) h.

(** What a caller can do with the object [r] a query returned: create
    objects of its own, change the entries of [r] in place (item assignment,
    deletion, [append], [clear], [sort], ...: any function of the entries),
    or assign fields of the [i]-th object [r] refers to. An action that does
    not apply to the object at hand raises on the caller's side and changes
    nothing. *)
Inductive action : Type :=
  | New (o : object)
  | MutateDict (f : dict → dict)
  | MutateList (f : list loc → list loc)
  | MutateItem (i : nat) (f : Transaction → Transaction).

Definition perform (r : loc) (h : store) (act : action) : store :=
  match act with
  | New o => <[fresh (dom h) := o]> h
  | MutateDict f =>
      match h !! r with
      | Some (Dict d) => <[r := Dict (f d)]> h
      | _ => h
      end
  | MutateList f =>
      match h !! r with
      | Some (List l) => <[r := List (f l)]> h
      | _ => h
      end
  | MutateItem i f =>
      match h !! r with
      | Some (List l) =>
          match l !! i with
          | Some x =>
              match h !! x with
              | Some (TransactionObject t) => <[x := TransactionObject (f t)]> h
              | _ => h
              end
          | None => h
          end
      | _ => h
      end
  end.

(** The actions that touch the returned container only. *)
Definition on_container (act : action) : Prop :=
  match act with MutateItem _ _ => False | _ => True end.

(** The account of [test_get_holdings_returns_copy] as objects: 500
    deposited, then 2 AAPL bought. *)
Definition example_deposit : Transaction :=
  mkTransaction 1 DEPOSIT 500%float None None None.
Definition example_buy : Transaction :=
  mkTransaction 2 BUY (- (150 * 2))%float (Some "AAPL") (Some 2%Z) (Some 150%float).
Definition example_store : store :=
  {[ 0%nat := Dict [("AAPL", 2%Z)];
     1%nat := List [2%nat; 3%nat];
     2%nat := TransactionObject example_deposit;
     3%nat := TransactionObject example_buy ]}.
Definition example_self : AccountObject :=
  mkAccountObject "12345" "Test User" 200%float 500%float 0%nat 1%nat.

(** [t.amount = v] *)
Definition set_amount (v : float) (t : Transaction) : Transaction :=
  mkTransaction (timestamp t) (type t) v (symbol t) (quantity t) (share_price t).

(** The amounts of the account's history, as a later
    [get_transactions] would show them. *)
Definition history_amounts (h : store) (self : AccountObject) : option (list float) :=
  a ← state h self; Some (amount <$> transactions a).

End Objects.

(** ** Reading the transaction list *)

(** The shares of [s] a record moves into the account. *)
Definition traded (s : string) (t : Transaction) : Z :=
  match type t, symbol t, quantity t with
  | BUY, Some s', Some q => if decide (s' = s) then q else 0
  | SELL, Some s', Some q => if decide (s' = s) then - q else 0
  | _, _, _ => 0
  end%Z.

Definition net_quantity (s : string) (ts : list Transaction) : Z :=
  foldr (λ t n, (traded s t + n)%Z) 0%Z ts.

(** The transaction type a call records when it completes. *)
Definition recorded_type (o : Op) : TransactionType :=
  match o with
  | Deposit _ => DEPOSIT
  | Withdraw _ => WITHDRAW
  | Buy _ _ => BUY
  | Sell _ _ => SELL
  end.

(** What each call site of [_record_transaction] writes: a deposit or a
    withdrawal carries an amount only; a trade carries its symbol, its
    quantity, the price the table gave and, as amount, the binary64 product
    of that price and the converted quantity, negated for a purchase. *)
Definition well_formed (t : Transaction) : Prop :=
  match type t with
  | DEPOSIT =>
      (amount t <=? 0)%float = false ∧
      symbol t = None ∧ quantity t = None ∧ share_price t = None
  | WITHDRAW =>
      ∃ x, (x <=? 0)%float = false ∧ amount t = (- x)%float ∧
           symbol t = None ∧ quantity t = None ∧ share_price t = None
  | BUY =>
      ∃ s q p fq, symbol t = Some s ∧ quantity t = Some q ∧ share_price t = Some p ∧
                  0 < q ∧ get_share_price s = Return p ∧
                  float_of_int q = Return fq ∧ amount t = (- (p * fq))%float
  | SELL =>
      ∃ s q p fq, symbol t = Some s ∧ quantity t = Some q ∧ share_price t = Some p ∧
                  0 < q ∧ get_share_price s = Return p ∧
                  float_of_int q = Return fq ∧ amount t = (p * fq)%float
  end.

(** ** Signs in binary64 *)

(** A number that does not compare below zero: a zero of either sign, a
    positive number, [+inf], or NaN. *)
Definition SFnonneg (x : spec_float) : Prop :=
  match x with
  | S754_zero _ | S754_nan => True
  | S754_infinity s | S754_finite s _ _ => s = false
  end.

(** * Properties *)

(** ** Dictionaries *)

Lemma dict_lookup_app key (d1 d2 : dict) :
  dict_lookup key (d1 ++ d2) =
  match dict_lookup key d1 with
  | Some v => Some v
  | None => dict_lookup key d2
  end.
Proof.
  induction d1 as [|[k v] d1 IH]; simpl; [done|]. by case_decide.
Qed.

Lemma dict_lookup_None key (d : dict) : dict_lookup key d = None ↔ key ∉ d.*1.
Proof.
  induction d as [|[k v] d IH]; simpl.
  - split; [intros _; apply not_elem_of_nil|done].
  - rewrite not_elem_of_cons. destruct (decide (k = key)) as [->|Hne].
    + split; [done|]. by intros [? _].
    + rewrite IH. split; [by intros ?; split|by intros [_ ?]].
Qed.

Lemma dict_lookup_replace key v key' (d : dict) :
  dict_lookup key' ((λ kv, if decide (kv.1 = key) then (key, v) else kv) <$> d) =
  if decide (key = key') then dict_lookup key d ≫= (λ _, Some v)
  else dict_lookup key' d.
Proof.
  induction d as [|[k w] d IH]; simpl; [by case_decide|].
  repeat (case_decide; simpl in *; subst); try done; congruence.
Qed.

Lemma dict_lookup_set key v key' (d : dict) :
  dict_lookup key' (dict_set key v d) =
  if decide (key = key') then Some v else dict_lookup key' d.
Proof.
  unfold dict_set. destruct (dict_lookup key d) as [w|] eqn:Hk.
  - rewrite dict_lookup_replace, Hk. by case_decide.
  - rewrite dict_lookup_app; simpl.
    case_decide; subst; [by rewrite Hk|]. by destruct (dict_lookup key' d).
Qed.

Lemma dict_lookup_del key key' (d : dict) :
  dict_lookup key' (dict_del key d) =
  if decide (key = key') then None else dict_lookup key' d.
Proof.
  unfold dict_del. induction d as [|[k w] d IH]; simpl; [by case_decide|].
  rewrite filter_cons; simpl.
  repeat (case_decide; simpl in *; subst); try done; congruence.
Qed.

Lemma dict_del_id key (d : dict) : dict_lookup key d = None → dict_del key d = d.
Proof.
  unfold dict_del. induction d as [|[k w] d IH]; simpl; [done|].
  case_decide; [done|]. intros Hk. rewrite filter_cons; simpl.
  rewrite decide_True by done. by rewrite IH.
Qed.

Lemma dict_del_set key v (d : dict) : dict_del key (dict_set key v d) = dict_del key d.
Proof.
  unfold dict_set, dict_del. destruct (dict_lookup key d) as [w|] eqn:Hk.
  - clear Hk. induction d as [|[k u] d IH]; simpl; [done|].
    rewrite !filter_cons; simpl.
    destruct (decide (k = key)) as [->|Hne]; simpl.
    + rewrite !decide_False by naive_solver. apply IH.
    + rewrite !decide_True by done. f_equal. apply IH.
  - rewrite filter_app, filter_cons; simpl. rewrite decide_False by naive_solver.
    by rewrite filter_nil, app_nil_r.
Qed.

Lemma dict_replace_absent key v (d : dict) :
  dict_lookup key d = None →
  (λ kv, if decide (kv.1 = key) then (key, v) else kv) <$> d = d.
Proof.
  induction d as [|[k u] d IH]; [done|]. simpl dict_lookup.
  case_decide; [done|]. intros Hk. rewrite fmap_cons; simpl.
  rewrite decide_False by done. f_equal. by apply IH.
Qed.

Lemma dict_set_set key v w (d : dict) :
  dict_set key v (dict_set key w d) = dict_set key v d.
Proof.
  unfold dict_set at 1. rewrite dict_lookup_set, decide_True by done.
  unfold dict_set. destruct (dict_lookup key d) as [u|] eqn:Hk.
  - rewrite <- list_fmap_compose. apply list_fmap_ext. intros i [k u'] _; simpl.
    destruct (decide (k = key)) as [->|Hne]; simpl.
    + by rewrite decide_True.
    + by rewrite decide_False.
  - rewrite fmap_app; simpl. rewrite decide_True by done. f_equal.
    by apply dict_replace_absent.
Qed.

Lemma dict_set_id key v (d : dict) :
  dict_wf d → dict_lookup key d = Some v → dict_set key v d = d.
Proof.
  unfold dict_set, dict_wf. intros Hwf Hk. rewrite Hk.
  induction d as [|[k w] d IH]; [done|].
  rewrite fmap_cons in Hwf. apply NoDup_cons in Hwf as [Hnotin Hwf].
  simpl in Hk. rewrite fmap_cons; simpl.
  destruct (decide (k = key)) as [->|Hne].
  - injection Hk as ->. f_equal.
    by apply dict_replace_absent, dict_lookup_None.
  - f_equal. by apply IH.
Qed.

Lemma dict_del_new key v (d : dict) :
  dict_lookup key d = None → dict_del key (dict_set key v d) = d.
Proof. intros Hk. by rewrite dict_del_set, dict_del_id. Qed.

Lemma dict_set_keys key v (d : dict) :
  (dict_set key v d).*1 =
  match dict_lookup key d with Some _ => d.*1 | None => d.*1 ++ [key] end.
Proof.
  unfold dict_set. destruct (dict_lookup key d) as [w|].
  - rewrite <- list_fmap_compose. apply list_fmap_ext. intros i [k u] _; simpl.
    by case_decide.
  - by rewrite fmap_app.
Qed.

Lemma dict_set_wf key v (d : dict) : dict_wf d → dict_wf (dict_set key v d).
Proof.
  unfold dict_wf. rewrite dict_set_keys.
  destruct (dict_lookup key d) as [w|] eqn:Hk; [done|].
  intros Hwf. apply NoDup_app. split_and!; [done| |apply NoDup_singleton].
  intros k Hin ->%list_elem_of_singleton. by apply dict_lookup_None in Hk.
Qed.

Lemma dict_del_wf key (d : dict) : dict_wf d → dict_wf (dict_del key d).
Proof.
  unfold dict_wf, dict_del. intros Hwf.
  eapply sublist_NoDup; [exact Hwf|apply fmap_sublist, sublist_filter].
Qed.

(** ** The price helper *)

Lemma get_share_price_Return symbol price :
  get_share_price symbol = Return price ↔ prices !! symbol = Some price.
Proof.
  unfold get_share_price. destruct (prices !! symbol); split; congruence.
Qed.

Lemma get_share_price_Raise symbol e :
  get_share_price symbol = Raise e ↔
  prices !! symbol = None ∧ e = InvalidSymbolError ("Invalid symbol: " +:+ symbol).
Proof.
  unfold get_share_price. destruct (prices !! symbol); split.
  - discriminate.
  - by intros [? _].
  - by intros [= <-].
  - by intros [_ ->].
Qed.

(** ** One equation per method: the body, run on an arbitrary [self] *)

Lemma deposit_eq now amount a :
  deposit now amount a =
  if (amount <=? 0)%float
  then (Raise (ValueError "Deposit amount must be positive."), a) else
  (Return tt,
   mkAccount (account_id a) (user_name a)
     (cash_balance a + amount)%float (total_deposits a + amount)%float (holdings a)
     (transactions a ++ [mkTransaction now DEPOSIT amount None None None])).
Proof. unfold deposit. by destruct (amount <=? 0)%float. Qed.

Lemma withdraw_eq now amount a :
  withdraw now amount a =
  if (amount <=? 0)%float
  then (Raise (ValueError "Withdrawal amount must be positive."), a) else
  if (cash_balance a <? amount)%float
  then (Raise (InsufficientFundsError
                 "Cannot withdraw more than the available cash balance."), a) else
  (Return tt,
   mkAccount (account_id a) (user_name a)
     (cash_balance a - amount)%float (total_deposits a) (holdings a)
     (transactions a ++ [mkTransaction now WITHDRAW (- amount)%float None None None])).
Proof.
  unfold withdraw. destruct (amount <=? 0)%float; [done|].
  unfold mbind, M_bind, read; simpl. by destruct (cash_balance a <? amount)%float.
Qed.

Section PricedFacts.
Variable share_price_of : string → Outcome float.

Lemma buy_eq now symbol quantity a :
  buy share_price_of now symbol quantity a =
  if decide (quantity ≤ 0)
  then (Raise (ValueError "Quantity to buy must be a positive integer."), a) else
  match share_price_of symbol with
  | Raise e => (Raise e, a)
  | Return price =>
      match float_mul_int price quantity with
      | Raise e => (Raise e, a)
      | Return total_cost =>
          if (cash_balance a <? total_cost)%float
          then (Raise (InsufficientFundsError
                         ("Insufficient funds to buy " +:+ pretty quantity +:+
                          " shares of " +:+ symbol +:+ ".")), a) else
          (Return tt,
           mkAccount (account_id a) (user_name a)
             (cash_balance a - total_cost)%float (total_deposits a)
             (dict_set symbol (default 0 (dict_lookup symbol (holdings a)) + quantity)
                (holdings a))
             (transactions a ++
              [mkTransaction now BUY (- total_cost)%float
                 (Some symbol) (Some quantity) (Some price)]))
      end
  end.
Proof.
  unfold buy. case_decide; [done|].
  unfold mbind, M_bind, call, read; simpl.
  destruct (share_price_of symbol) as [price|e]; [|done].
  destruct (float_mul_int price quantity) as [total_cost|e]; [|done].
  by destruct (cash_balance a <? total_cost)%float.
Qed.

Lemma sell_eq now symbol quantity a :
  sell share_price_of now symbol quantity a =
  if decide (quantity ≤ 0)
  then (Raise (ValueError "Quantity to sell must be a positive integer."), a) else
  let current_quantity := default 0 (dict_lookup symbol (holdings a)) in
  if decide (current_quantity < quantity)
  then (Raise (InsufficientSharesError
                 ("Not enough shares to sell " +:+ pretty quantity +:+ " of " +:+
                  symbol +:+ ". You only have " +:+ pretty current_quantity +:+ ".")),
        a) else
  match share_price_of symbol with
  | Raise e => (Raise e, a)
  | Return price =>
      match float_mul_int price quantity with
      | Raise e => (Raise e, a)
      | Return total_sale_value =>
          (Return tt,
           mkAccount (account_id a) (user_name a)
             (cash_balance a + total_sale_value)%float (total_deposits a)
             (if decide (current_quantity - quantity = 0)
              then dict_del symbol (holdings a)
              else dict_set symbol (current_quantity - quantity) (holdings a))
             (transactions a ++
              [mkTransaction now SELL total_sale_value
                 (Some symbol) (Some quantity) (Some price)]))
      end
  end.
Proof.
  unfold sell. case_decide as Hq; [done|].
  unfold mbind, M_bind, call, get, getitem, read; simpl.
  case_decide as Hcur; [done|].
  destruct (share_price_of symbol) as [price|e]; [|done].
  destruct (float_mul_int price quantity) as [total_sale_value|e]; [|done].
  destruct (dict_lookup symbol (holdings a)) as [held|] eqn:Hheld; simpl in *; [|lia].
  rewrite dict_lookup_set, decide_True by done.
  case_decide as Hz; simpl; [|done].
  unfold assign, set_holdings, _record_transaction, set_transactions; simpl.
  by rewrite dict_del_set.
Qed.
End PricedFacts.

(** ** Binary64: signs and comparisons *)

Lemma SFnonneg_ltb x : SFltb x (S754_zero false) = false ↔ SFnonneg x.
Proof. destruct x as [[]|[]| |[] m e]; simpl; unfold SFltb; simpl; naive_solver. Qed.

Lemma ltb_0_nonneg (x : float) : (x <? 0)%float = false ↔ SFnonneg (Prim2SF x).
Proof. rewrite FloatAxioms.ltb_spec. apply SFnonneg_ltb. Qed.

Lemma binary_round_aux_nonneg mx ex lx :
  SFnonneg (binary_round_aux prec emax false mx ex lx).
Proof.
  unfold binary_round_aux.
  destruct (shr_fexp prec emax mx ex lx) as [mrs' e'].
  destruct (shr_fexp prec emax _ e' loc_Exact) as [mrs'' e''].
  destruct (shr_m mrs''); [done| |done].
  by destruct (e'' <=? emax - prec).
Qed.

Lemma binary_round_nonneg mx ex : SFnonneg (binary_round prec emax false mx ex).
Proof.
  unfold binary_round. destruct (shl_align _ _ _) as [mz ez].
  apply binary_round_aux_nonneg.
Qed.

Lemma binary_normalize_nonneg m e szero :
  0 ≤ m → SFnonneg (binary_normalize prec emax m e szero).
Proof.
  intros Hm. destruct m as [|m|m]; simpl; [done|apply binary_round_nonneg|lia].
Qed.

Lemma SFadd_nonneg x y : SFnonneg x → SFnonneg y → SFnonneg (SFadd prec emax x y).
Proof.
  destruct x as [[]|[]| |[] mx ex], y as [[]|[]| |[] my ey]; simpl; try done.
  intros _ _. apply binary_round_nonneg.
Qed.

Lemma SFmul_nonneg x y : SFnonneg x → SFnonneg y → SFnonneg (SFmul prec emax x y).
Proof.
  destruct x as [[]|[]| |[] mx ex], y as [[]|[]| |[] my ey]; simpl; try done.
  intros _ _. apply binary_round_aux_nonneg.
Qed.

Lemma add_nonneg (x y : float) :
  (x <? 0)%float = false → (y <? 0)%float = false → (x + y <? 0)%float = false.
Proof.
  rewrite !ltb_0_nonneg, FloatAxioms.add_spec. apply SFadd_nonneg.
Qed.

Lemma mul_nonneg (x y : float) :
  (x <? 0)%float = false → (y <? 0)%float = false → (x * y <? 0)%float = false.
Proof.
  rewrite !ltb_0_nonneg, FloatAxioms.mul_spec. apply SFmul_nonneg.
Qed.

Lemma leb_0_ltb_0 (x : float) : (x <=? 0)%float = false → (x <? 0)%float = false.
Proof.
  rewrite FloatAxioms.leb_spec, FloatAxioms.ltb_spec. unfold SFleb, SFltb.
  by destruct (SFcompare _ _) as [[]|].
Qed.

Lemma SFnonneg_leb x : SFnonneg x → x = S754_nan ∨ SFleb (S754_zero false) x = true.
Proof. destruct x as [[]|[]| |[] m e]; simpl; unfold SFleb; simpl; naive_solver. Qed.

(** *** Aligned mantissas *)

Lemma Pos_iter_xO m d : Z.pos (Pos.iter xO m d) = Z.pos m * 2 ^ Z.pos d.
Proof.
  induction d as [|d IH] using Pos.peano_ind; [simpl; lia|].
  rewrite Pos.iter_succ, Pos2Z.inj_succ, Z.pow_succ_r by lia.
  rewrite Pos2Z.inj_xO, IH. lia.
Qed.

Lemma shl_align_fst m e e' :
  e' ≤ e → Z.pos (shl_align m e e').1 = Z.pos m * 2 ^ (e - e').
Proof.
  intros He. unfold shl_align. destruct (e' - e) as [|d|d] eqn:Hd; simpl.
  - replace (e - e') with 0 by lia. lia.
  - lia.
  - rewrite Pos_iter_xO. f_equal. f_equal. lia.
Qed.

Lemma digits2_pos_bounds m :
  2 ^ (Z.pos (digits2_pos m) - 1) ≤ Z.pos m < 2 ^ Z.pos (digits2_pos m).
Proof.
  induction m as [m IH|m IH|]; simpl; [| |lia];
    rewrite Pos2Z.inj_succ;
    replace (Z.succ (Z.pos (digits2_pos m)) - 1) with (Z.succ (Z.pos (digits2_pos m) - 1))
      by lia;
    rewrite !Z.pow_succ_r by lia; lia.
Qed.

(** A canonical mantissa has at most 53 digits, and exactly 53 above the
    smallest exponent. *)
Lemma bounded_canonical m e :
  bounded prec emax m e = true →
  -1074 ≤ e ∧ Z.pos m < 2 ^ 53 ∧ (-1074 < e → 2 ^ 52 ≤ Z.pos m).
Proof.
  unfold bounded, canonical_mantissa, fexp, SpecFloat.emin, prec, emax.
  intros [Hc _]%andb_prop.
  apply Z.eqb_eq in Hc. pose proof (digits2_pos_bounds m) as [Hlo Hhi].
  assert (Z.pos (digits2_pos m) ≤ 53) as Hd by lia.
  split_and!.
  - lia.
  - eapply Z.lt_le_trans; [exact Hhi|]. by apply Z.pow_le_mono_r.
  - intros He. assert (Z.pos (digits2_pos m) = 53) as Hd53 by lia.
    by rewrite Hd53 in Hlo.
Qed.

(** On canonical representations the order of the numbers is the order of
    the exponents, then of the mantissas. *)
Lemma canonical_le m1 e1 m2 e2 :
  bounded prec emax m1 e1 = true → bounded prec emax m2 e2 = true →
  e1 < e2 →
  Z.pos (shl_align m1 e1 (e1 `min` e2)).1 ≤ Z.pos (shl_align m2 e2 (e1 `min` e2)).1.
Proof.
  intros (He1 & Hm1 & _)%bounded_canonical (He2 & _ & Hm2)%bounded_canonical Hlt.
  rewrite !shl_align_fst by lia.
  replace (e1 `min` e2) with e1 by lia. replace (e1 - e1) with 0 by lia.
  assert (2 ^ 1 ≤ 2 ^ (e2 - e1)) by (apply Z.pow_le_mono_r; lia).
  specialize (Hm2 ltac:(lia)). nia.
Qed.

Lemma SFsub_nonneg x y :
  valid_binary x = true → valid_binary y = true →
  SFltb x y = false → SFnonneg (SFsub prec emax x y).
Proof.
  destruct x as [[]|[]| |sx mx ex], y as [[]|[]| |sy my ey]; simpl;
    intros Hx Hy; unfold SFltb; simpl; intros Hlt;
    try done; try (by destruct sx); try (by destruct sy).
  apply binary_normalize_nonneg.
  change (PosDef.Pos.compare_cont Eq mx my) with (mx ?= my)%positive in Hlt.
  destruct sx, sy; simpl; try done.
  - destruct (Z.compare_spec ex ey) as [->|Hex|Hex]; [|..|done].
    + rewrite Z.min_id, !shl_align_fst by lia. replace (ey - ey) with 0 by lia.
      destruct (Pos.compare_spec mx my); simpl in Hlt; try done; lia.
    + pose proof (canonical_le mx ex my ey Hx Hy Hex). lia.
  - destruct (Z.compare_spec ex ey) as [->|Hex|Hex]; [|done|].
    + rewrite Z.min_id, !shl_align_fst by lia. replace (ey - ey) with 0 by lia.
      destruct (Pos.compare_spec mx my); simpl in Hlt; try done; lia.
    + pose proof (canonical_le my ey mx ex Hy Hx Hex) as Hle.
      rewrite Z.min_comm in Hle. lia.
Qed.

Lemma sub_nonneg (x y : float) :
  (x <? y)%float = false → (x - y <? 0)%float = false.
Proof.
  rewrite FloatAxioms.ltb_spec, ltb_0_nonneg, FloatAxioms.sub_spec.
  apply SFsub_nonneg; apply Prim2SF_valid.
Qed.

(** *** Converted quantities *)

Lemma SFldexp_nonneg x e : SFnonneg x → SFnonneg (SFldexp prec emax x e).
Proof.
  destruct x as [[]|[]| |[] m ex]; simpl; try done.
  intros _. apply binary_round_nonneg.
Qed.

Lemma SF2Prim_nonneg x : SFnonneg x → SFnonneg (Prim2SF (SF2Prim x)).
Proof.
  destruct x as [[]|[]| |[] m e]; try done; intros _.
  unfold SF2Prim. rewrite Z_ldexp_spec, of_uint63_spec.
  apply SFldexp_nonneg, binary_normalize_nonneg.
  apply Uint63.to_Z_bounded.
Qed.

Lemma float_of_int_nonneg n x :
  0 ≤ n → float_of_int n = Return x → (x <? 0)%float = false.
Proof.
  intros Hn. unfold float_of_int.
  pose proof (binary_normalize_nonneg n 0 false Hn) as Hnn.
  destruct (binary_normalize prec emax n 0 false) eqn:Hr; [| done | |];
    intros [= <-]; apply ltb_0_nonneg; exact (SF2Prim_nonneg _ Hnn).
Qed.

(** *** Rounding a sum *)

Lemma shr_1_m mrs : 0 ≤ shr_m mrs → shr_m (shr_1 mrs) = shr_m mrs / 2.
Proof.
  destruct mrs as [[|[p|p|]|p] r s]; simpl; intros Hm; try done; try lia.
  - rewrite Pos2Z.inj_xI. apply (Z.div_unique _ _ _ 1); lia.
  - rewrite Pos2Z.inj_xO. apply (Z.div_unique _ _ _ 0); lia.
Qed.

Lemma iter_pos_shr_1_m p : ∀ mrs,
  0 ≤ shr_m mrs → shr_m (SpecFloat.iter_pos shr_1 p mrs) = shr_m mrs / 2 ^ Z.pos p.
Proof.
  assert (∀ m k, 0 ≤ m → 0 ≤ k → 0 ≤ m / 2 ^ k) as Hdiv.
  { intros m k Hm Hk. apply Z.div_pos; [done|]. by apply Z.pow_pos_nonneg. }
  induction p as [p IH|p IH|]; intros mrs Hm; simpl.
  - assert (0 ≤ shr_m (shr_1 mrs)) as H1 by (rewrite shr_1_m by done; by apply Z.div_pos).
    rewrite !IH, shr_1_m; auto.
    + rewrite !Z.div_div by (try apply Z.pow_pos_nonneg; lia).
      f_equal. rewrite Pos2Z.inj_xI, <- !Z.pow_add_r, <- (Z.pow_succ_r 2) by lia.
      f_equal. lia.
    + rewrite IH by done. by apply Hdiv.
  - rewrite !IH; auto.
    + rewrite !Z.div_div by (try apply Z.pow_pos_nonneg; lia).
      f_equal. rewrite Pos2Z.inj_xO, <- !Z.pow_add_r by lia. f_equal. lia.
    + rewrite IH by done. by apply Hdiv.
  - by rewrite shr_1_m.
Qed.

Lemma shr_spec mrs e n :
  0 ≤ shr_m mrs →
  shr_m (shr mrs e n).1 = shr_m mrs / 2 ^ (n `max` 0) ∧ (shr mrs e n).2 = e + n `max` 0.
Proof.
  intros Hm. destruct n as [|p|p]; simpl.
  - split; [by rewrite Z.div_1_r|lia].
  - split; [by apply iter_pos_shr_1_m|lia].
  - split; [by rewrite Z.div_1_r|lia].
Qed.

Lemma round_nearest_even_ge m l : m ≤ round_nearest_even m l.
Proof.
  destruct l as [|[]]; simpl; try lia. destruct (IntDef.Z.even m); lia.
Qed.

(** Rounding a number that is at least the canonical [mx * 2 ^ ex] gives
    a number that does not compare below it. *)
Lemma binary_round_ge M ez mx ex :
  bounded prec emax mx ex = true → -1074 ≤ ez ≤ ex →
  Z.pos mx * 2 ^ (ex - ez) ≤ Z.pos M →
  SFltb (binary_round prec emax false M ez) (S754_finite false mx ex) = false.
Proof.
  intros Hx Hez HM.
  pose proof (digits2_pos_bounds M) as [HMlo HMhi].
  pose proof (digits2_pos_bounds mx) as [Hxlo Hxhi].
  assert (Z.max (Z.pos (digits2_pos mx) + ex - 53) (-1074) = ex) as Hcan.
  { revert Hx. unfold bounded, canonical_mantissa, fexp, SpecFloat.emin, prec, emax.
    intros [Hc _]%andb_prop. apply Z.eqb_eq in Hc. lia. }
  set (dM := Z.pos (digits2_pos M)) in *. set (dx := Z.pos (digits2_pos mx)) in *.
  assert (0 < dM ∧ 0 < dx) as [HdM0 Hdx0] by (unfold dM, dx; lia).
  assert (dx + (ex - ez) ≤ dM) as Hd.
  { assert (2 ^ (dx - 1 + (ex - ez)) < 2 ^ dM) as Hpow.
    { rewrite Z.pow_add_r by lia.
      eapply Z.le_lt_trans; [|exact HMhi]. etrans; [|exact HM].
      apply Z.mul_le_mono_nonneg_r; [apply Z.pow_nonneg|]; lia. }
    apply Z.pow_lt_mono_r_iff in Hpow; lia. }
  assert (fexp prec emax (dM + ez) = Z.max (dM + ez - 53) (-1074)) as Ht by done.
  set (t := fexp prec emax (dM + ez)) in *.
  assert (ex ≤ t) as Hext by lia.
  assert (2 ^ (t - ez) ≤ Z.pos M) as HMt.
  { etrans; [|exact HMlo]. apply Z.pow_le_mono_r; lia. }
  unfold binary_round. fold dM t.
  assert (shl_align M ez t = (M, ez)) as ->.
  { unfold shl_align. destruct (t - ez) eqn:?; try done. lia. }
  unfold binary_round_aux, shr_fexp.
  change (Zdigits2 (Z.pos M)) with dM. fold t.
  pose proof (shr_spec (shr_record_of_loc (Z.pos M) loc_Exact) ez (t - ez)
                ltac:(simpl; lia)) as [Hm1 He1].
  destruct (shr (shr_record_of_loc (Z.pos M) loc_Exact) ez (t - ez)) as [mrs' e'].
  simpl in Hm1, He1. rewrite Z.max_l in Hm1, He1 by lia.
  assert (e' = t) as -> by lia. clear He1.
  assert (1 ≤ shr_m mrs') as Hmt1.
  { rewrite Hm1. apply Z.div_le_lower_bound; [apply Z.pow_pos_nonneg|]; lia. }
  assert (t = ex → Z.pos mx ≤ shr_m mrs') as Hmtx.
  { intros ->. rewrite Hm1. apply Z.div_le_lower_bound; [apply Z.pow_pos_nonneg|]; lia. }
  pose proof (round_nearest_even_ge (shr_m mrs') (loc_of_shr_record mrs')) as Hm1ge.
  destruct (round_nearest_even (shr_m mrs') (loc_of_shr_record mrs')) as [|p1|p1] eqn:Hp1;
    [lia| |lia].
  pose proof (digits2_pos_bounds p1) as [Hp1lo Hp1hi].
  change (Zdigits2 (Z.pos p1)) with (Z.pos (digits2_pos p1)).
  set (d1 := Z.pos (digits2_pos p1)) in *.
  assert (fexp prec emax (d1 + t) = Z.max (d1 + t - 53) (-1074)) as Ht2 by done.
  set (n2 := fexp prec emax (d1 + t) - t) in *.
  assert (0 < d1) as Hd10 by (unfold d1; lia).
  assert (n2 `max` 0 ≤ d1 - 1) as Hn2 by lia.
  pose proof (shr_spec (shr_record_of_loc (Z.pos p1) loc_Exact) t n2
                ltac:(simpl; lia)) as [Hm2 He2].
  destruct (shr (shr_record_of_loc (Z.pos p1) loc_Exact) t n2) as [mrs'' e''].
  simpl in Hm2, He2.
  assert (1 ≤ shr_m mrs'') as Hm2pos.
  { rewrite Hm2. apply Z.div_le_lower_bound; [apply Z.pow_pos_nonneg; lia|].
    rewrite Z.mul_1_r. etrans; [|exact Hp1lo]. apply Z.pow_le_mono_r; lia. }
  destruct (shr_m mrs'') as [|m2|m2] eqn:Hm2eq; [lia| |lia].
  destruct (e'' <=? emax - prec); [|done].
  unfold SFltb; simpl.
  change (PosDef.Pos.compare_cont Eq m2 mx) with (m2 ?= mx)%positive.
  destruct (Z.compare_spec e'' ex) as [He|He|He]; [|lia|done].
  assert (n2 `max` 0 = 0) as Hn20 by lia.
  rewrite Hn20, Z.div_1_r in Hm2.
  destruct (Pos.compare_spec m2 mx) as [?|Hlt|?]; try done.
  specialize (Hmtx ltac:(lia)). lia.
Qed.

Lemma SFadd_ge x d :
  valid_binary x = true → valid_binary d = true →
  SFnonneg x → SFleb d (S754_zero false) = false →
  SFltb (SFadd prec emax x d) x = false.
Proof.
  destruct x as [[]|[]| |[] mx ex], d as [[]|[]| |[] md ed]; simpl;
    intros Hx Hd Hnn; unfold SFleb, SFltb; simpl; intros Hle; try done.
  destruct (bounded_canonical _ _ Hx) as (Hex & _), (bounded_canonical _ _ Hd) as (Hed & _).
  apply (binary_round_ge _ _ _ _ Hx); [lia|].
  rewrite Pos2Z.inj_add, shl_align_fst by lia. lia.
Qed.

Lemma add_ge (x d : float) :
  (x <? 0)%float = false → (d <=? 0)%float = false → (x + d <? x)%float = false.
Proof.
  rewrite ltb_0_nonneg, FloatAxioms.leb_spec, FloatAxioms.ltb_spec, FloatAxioms.add_spec.
  apply SFadd_ge; apply Prim2SF_valid.
Qed.

(** *** The order of binary64 numbers *)

(** Case analysis on the comparisons of exponents and mantissas. *)
Ltac compare_cases :=
  repeat match goal with
  | H : context [PosDef.Pos.compare_cont Eq ?a ?b] |- _ =>
      change (PosDef.Pos.compare_cont Eq a b) with (a ?= b)%positive in H
  | |- context [PosDef.Pos.compare_cont Eq ?a ?b] =>
      change (PosDef.Pos.compare_cont Eq a b) with (a ?= b)%positive
  end;
  repeat match goal with
  | H : context [(?a ?= ?b)%Z] |- _ => destruct (Z.compare_spec a b); simpl in H
  | |- context [(?a ?= ?b)%Z] => destruct (Z.compare_spec a b); simpl
  | H : context [(?a ?= ?b)%positive] |- _ => destruct (Pos.compare_spec a b); simpl in H
  | |- context [(?a ?= ?b)%positive] => destruct (Pos.compare_spec a b); simpl
  end;
  try done; try lia.

Lemma SFltb_irrefl x : SFltb x x = false.
Proof.
  destruct x as [[]|[]| |[] m e]; unfold SFltb; simpl; try done; compare_cases.
Qed.

Lemma SFltb_false_trans x y z :
  y ≠ S754_nan → SFltb z y = false → SFltb y x = false → SFltb z x = false.
Proof.
  intros Hy. unfold SFltb.
  destruct x as [[]|[]| |[] mx ex], y as [[]|[]| |[] my ey], z as [[]|[]| |[] mz ez];
    simpl; try done; intros Hzy Hyx; compare_cases.
Qed.

Lemma SFltb_false_leb x z :
  x ≠ S754_nan → z ≠ S754_nan → SFltb z x = false → SFleb x z = true.
Proof.
  intros Hx Hz. unfold SFltb, SFleb.
  destruct x as [[]|[]| |[] mx ex], z as [[]|[]| |[] mz ez];
    simpl; try done; intros Hzx; compare_cases.
Qed.

Lemma ltb_irrefl (x : float) : (x <? x)%float = false.
Proof. rewrite FloatAxioms.ltb_spec. apply SFltb_irrefl. Qed.

Lemma is_nan_Prim2SF (x : float) : is_nan x = true ↔ Prim2SF x = S754_nan.
Proof.
  unfold is_nan. rewrite FloatAxioms.eqb_spec. unfold SFeqb.
  destruct (Prim2SF x) as [[]|[]| |[] m e]; simpl; try done; compare_cases.
Qed.

Lemma add_nan (x d : float) : is_nan x = true → is_nan (x + d) = true.
Proof.
  rewrite !is_nan_Prim2SF, FloatAxioms.add_spec. by intros ->.
Qed.

(** ** Scenarios of the design, run on the embedding *)

Example scenario_new_account :
  let a := init "12345" "Test User" in
  get_portfolio_value get_share_price a = (Return 0%float, a) ∧
  get_profit_loss get_share_price a = (Return 0%float, a) ∧
  holdings a = [] ∧ transactions a = [].
Proof. by vm_compute. Qed.

Example scenario_deposit_buy_sell :
  let a1 := run [(1, Deposit 1500%float); (2, Buy "AAPL" 10)] (init "12345" "Test User") in
  let a2 := run [(3, Sell "AAPL" 4)] a1 in
  cash_balance a1 = 0%float ∧ holdings a1 = [("AAPL", 10)] ∧
  cash_balance a2 = 600%float ∧ holdings a2 = [("AAPL", 6)] ∧
  type <$> transactions a2 = [DEPOSIT; BUY; SELL].
Proof. by vm_compute. Qed.

Example scenario_rejections :
  let a := run [(1, Deposit 100%float)] (init "12345" "Test User") in
  (deposit 2 0%float a).1 = Raise (ValueError "Deposit amount must be positive.") ∧
  (withdraw 2 (-50)%float a).1 = Raise (ValueError "Withdrawal amount must be positive.") ∧
  (withdraw 2 150%float a).1 =
    Raise (InsufficientFundsError "Cannot withdraw more than the available cash balance.") ∧
  (buy get_share_price 2 "AAPL" 1 a).1 =
    Raise (InsufficientFundsError "Insufficient funds to buy 1 shares of AAPL.") ∧
  (buy get_share_price 2 "INVALID" 2 a).1 =
    Raise (InvalidSymbolError "Invalid symbol: INVALID") ∧
  (sell get_share_price 2 "TSLA" 1 a).1 =
    Raise (InsufficientSharesError "Not enough shares to sell 1 of TSLA. You only have 0.").
Proof. by vm_compute. Qed.

(** ** Rejected calls *)

(** A call either meets its validation failure and returns [self] as it
    found it, or returns normally with exactly one more transaction. *)
Lemma step_cases now o a :
  match rejection o a with
  | Some e => step now o a = (Raise e, a)
  | None => ∃ a' t, step now o a = (Return tt, a') ∧
                    transactions a' = transactions a ++ [t]
  end.
Proof.
  destruct o as [amount|amount|symbol quantity|symbol quantity]; simpl;
    rewrite ?deposit_eq, ?withdraw_eq, ?buy_eq, ?sell_eq;
    unfold get_share_price, float_mul_int; simpl.
  - destruct (amount <=? 0)%float; eauto.
  - destruct (amount <=? 0)%float; [done|].
    destruct (cash_balance a <? amount)%float; eauto.
  - case_decide; [done|]. destruct (prices !! symbol) as [price|]; [|done].
    destruct (float_of_int quantity) as [fq|e]; [|done].
    destruct (cash_balance a <? price * fq)%float; eauto.
  - case_decide; [done|]. case_decide; [done|].
    destruct (prices !! symbol) as [price|]; [|done].
    destruct (float_of_int quantity) as [fq|e]; eauto.
Qed.

Lemma step_Raise now o a e a' :
  step now o a = (Raise e, a') → rejection o a = Some e ∧ a' = a.
Proof.
  intros Hstep. pose proof (step_cases now o a) as H.
  destruct (rejection o a) as [e0|].
  - rewrite Hstep in H. by injection H as <- <-.
  - destruct H as (? & ? & H & _). congruence.
Qed.

Lemma step_length now o a :
  length (transactions (step now o a).2) =
  (length (transactions a) + if succeeds (step now o a) then 1 else 0)%nat.
Proof.
  pose proof (step_cases now o a) as H.
  destruct (rejection o a).
  - rewrite H; simpl. lia.
  - destruct H as (a' & t & -> & Ht); simpl. rewrite Ht, length_app. simpl. lia.
Qed.

Lemma run_length calls : ∀ a,
  length (transactions (run calls a)) =
  (length (transactions a) + completed calls a)%nat.
Proof.
  induction calls as [|[now o] calls IH]; intros a; simpl; [lia|].
  rewrite IH, step_length. lia.
Qed.




(** Case analysis on a call: the operation, the price lookup, the
    conversion of the quantity, the checks. *)
Ltac step_analysis o :=
  destruct o as [amount|amount|symbol quantity|symbol quantity]; simpl;
  rewrite ?deposit_eq, ?withdraw_eq, ?buy_eq, ?sell_eq; simpl;
  unfold float_mul_int;
  try (destruct (get_share_price symbol) as [price|] eqn:Hprice);
  try (destruct (float_of_int quantity) as [fq|] eqn:Hfq);
  repeat first
    [ case_decide
    | match goal with
      | |- context [if (?x <=? ?y)%float then _ else _] =>
          destruct (x <=? y)%float eqn:?
      | |- context [if (?x <? ?y)%float then _ else _] =>
          destruct (x <? y)%float eqn:?
      end ];
  simpl.

(** ** Invariants of the holdings *)

Lemma step_holdings now o a :
  holdings (step now o a).2 = holdings a ∨
  ∃ symbol quantity,
    0 < quantity ∧ is_Some (prices !! symbol) ∧
    let held := default 0 (dict_lookup symbol (holdings a)) in
    (o = Buy symbol quantity ∧
     holdings (step now o a).2 = dict_set symbol (held + quantity) (holdings a)) ∨
    (o = Sell symbol quantity ∧ quantity ≤ held ∧
     holdings (step now o a).2 =
       if decide (held - quantity = 0) then dict_del symbol (holdings a)
       else dict_set symbol (held - quantity) (holdings a)).
Proof.
  destruct o as [amount|amount|symbol quantity|symbol quantity]; simpl;
    rewrite ?deposit_eq, ?withdraw_eq, ?buy_eq, ?sell_eq;
    unfold get_share_price, float_mul_int; simpl.
  - destruct (amount <=? 0)%float; auto.
  - destruct (amount <=? 0)%float; [auto|].
    destruct (cash_balance a <? amount)%float; auto.
  - case_decide; [auto|]. destruct (prices !! symbol) as [price|] eqn:Hp; [|auto].
    destruct (float_of_int quantity) as [fq|e]; [|auto].
    destruct (cash_balance a <? price * fq)%float; [auto|].
    right. exists symbol, quantity. split_and!; [lia|by rewrite Hp|]. left. done.
  - case_decide; [auto|]. case_decide; [auto|].
    destruct (prices !! symbol) as [price|] eqn:Hp; [|auto].
    destruct (float_of_int quantity) as [fq|e]; [|auto].
    right. exists symbol, quantity. split_and!; [lia|by rewrite Hp|]. right.
    split_and!; [done|lia|done].
Qed.

Lemma step_dict_wf now o a : dict_wf (holdings a) → dict_wf (holdings (step now o a).2).
Proof.
  intros Hwf. destruct (step_holdings now o a) as [->|(s & q & _ & _ & [[_ ->]|(_ & _ & ->)])];
    [done|by apply dict_set_wf|].
  case_decide; [by apply dict_del_wf|by apply dict_set_wf].
Qed.

Lemma step_holdings_positive now o a :
  holdings_positive a → holdings_positive (step now o a).2.
Proof.
  intros Hpos s' q'. unfold holdings_positive in Hpos.
  destruct (step_holdings now o a) as [->|(s & q & Hq & _ & [[_ ->]|(_ & Hle & ->)])];
    [apply Hpos| |].
  - rewrite dict_lookup_set. case_decide as Hs; [|apply Hpos].
    intros [= <-]. destruct (dict_lookup s (holdings a)) as [held|] eqn:Hheld; simpl; [|lia].
    specialize (Hpos _ _ Hheld). lia.
  - case_decide as Hz.
    + rewrite dict_lookup_del. case_decide; [done|apply Hpos].
    + rewrite dict_lookup_set. case_decide as Hs; [|apply Hpos].
      intros [= <-]. lia.
Qed.

Lemma step_holdings_priced now o a :
  holdings_priced a → holdings_priced (step now o a).2.
Proof.
  intros Hpr s'. unfold holdings_priced in Hpr.
  destruct (step_holdings now o a) as [->|(s & q & Hq & Hp & [[_ ->]|(_ & Hle & ->)])];
    [apply Hpr| |].
  - rewrite dict_lookup_set. case_decide as Hs; [by subst|apply Hpr].
  - case_decide as Hz.
    + rewrite dict_lookup_del. case_decide; [by intros [? [=]]|apply Hpr].
    + rewrite dict_lookup_set. case_decide as Hs; [by subst|apply Hpr].
Qed.

Lemma reachable_holdings a :
  reachable a → dict_wf (holdings a) ∧ holdings_positive a ∧ holdings_priced a.
Proof.
  induction 1 as [account_id user_name|now o a _ (Hwf & Hpos & Hpr)].
  - split_and!; [constructor|done|]. by intros s [? [=]].
  - split_and!; [by apply step_dict_wf|by apply step_holdings_positive|
                 by apply step_holdings_priced].
Qed.

Lemma run_reachable calls : ∀ a, reachable a → reachable (run calls a).
Proof.
  induction calls as [|[now o] calls IH]; intros a Ha; simpl; [done|].
  apply IH. by constructor.
Qed.




(** ** Purchases and sales *)

(** C3, as the code has it. Buying [quantity > 0] shares of a symbol the
    price helper prices at [price] computes the cost [price * quantity] in
    binary64, the quantity converted first. When the cash balance does not
    compare below that cost, the purchase replaces it by the binary64
    difference of the two, adds [quantity] to the holding of the symbol (an
    absent entry counts as zero and is created) and appends a BUY
    transaction with the negated cost as amount, the quantity and the price.
    When the cash balance compares below the cost the call raises
    [InsufficientFundsError]; when the quantity is too large to convert it
    raises [OverflowError]; for a symbol the helper does not know it raises
    the helper's [InvalidSymbolError]; in the three cases on an unchanged
    account. *)
Theorem buy_effect now symbol quantity a :
  0 < quantity →
  (∀ price fq, get_share_price symbol = Return price →
     float_of_int quantity = Return fq →
     (cash_balance a <? price * fq)%float = false →
     ∃ a', buy get_share_price now symbol quantity a = (Return tt, a') ∧
           cash_balance a' = (cash_balance a - price * fq)%float ∧
           holdings a' =
             dict_set symbol (default 0 (dict_lookup symbol (holdings a)) + quantity)
               (holdings a) ∧
           transactions a' =
             transactions a ++
             [mkTransaction now BUY (- (price * fq))%float
                (Some symbol) (Some quantity) (Some price)] ∧
           total_deposits a' = total_deposits a) ∧
  (∀ price fq, get_share_price symbol = Return price →
     float_of_int quantity = Return fq →
     (cash_balance a <? price * fq)%float = true →
     buy get_share_price now symbol quantity a =
     (Raise (InsufficientFundsError
               ("Insufficient funds to buy " +:+ pretty quantity +:+
                " shares of " +:+ symbol +:+ ".")), a)) ∧
  (∀ price e, get_share_price symbol = Return price →
     float_of_int quantity = Raise e →
     e = OverflowError "int too large to convert to float" ∧
     buy get_share_price now symbol quantity a = (Raise e, a)) ∧
  (∀ e, get_share_price symbol = Raise e →
     e = InvalidSymbolError ("Invalid symbol: " +:+ symbol) ∧
     buy get_share_price now symbol quantity a = (Raise e, a)).
Proof.
  intros Hq. rewrite buy_eq, decide_False by lia. unfold float_mul_int. split_and!.
  - intros price fq -> -> ->. by eexists.
  - by intros price fq -> -> ->.
  - intros price e -> He. rewrite He. split; [|done].
    unfold float_of_int in He.
    by destruct (binary_normalize prec emax quantity 0 false); simplify_eq.
  - intros e He. rewrite He. by apply get_share_price_Raise in He as [_ ->].
Qed.

Lemma buy_effect_witness :
  let a := (deposit 1 1000%float (init "12345" "Test User")).2 in
  (∃ a', buy get_share_price 2 "AAPL" 5 a = (Return tt, a') ∧
         cash_balance a' = 250%float ∧
         holdings a' = [("AAPL", 5)]) ∧
  buy get_share_price 2 "TSLA" 5 a =
    (Raise (InsufficientFundsError "Insufficient funds to buy 5 shares of TSLA."), a) ∧
  buy get_share_price 2 "INVALID" 2 a =
    (Raise (InvalidSymbolError "Invalid symbol: INVALID"), a).
Proof.
  intros a. split_and!.
  - destruct (buy_effect 2 "AAPL" 5 a) as (Hok & _); [lia|].
    destruct (Hok 150%float 5%float) as (a' & Hbuy & Hcash & Hhold & _);
      [vm_compute; reflexivity..|].
    exists a'. split_and!; [done|by rewrite Hcash|by rewrite Hhold].
  - destruct (buy_effect 2 "TSLA" 5 a) as (_ & Hlow & _); [lia|].
    apply (Hlow 250%float 5%float); vm_compute; reflexivity.
  - destruct (buy_effect 2 "INVALID" 2 a) as (_ & _ & _ & Hunk); [lia|].
    apply (Hunk (InvalidSymbolError "Invalid symbol: INVALID")). vm_compute; reflexivity.
Defined.

(** C3, as worded, fails where the difference is rounded: from a cash
    balance of 18014398509482140 the purchase of one share of AAPL at 150
    leaves 18014398509481992, 148 less, while the transaction records
    -150. *)
Lemma buy_cost_not_exact :
  let a := (deposit 1 18014398509482140%float (init "12345" "Test User")).2 in
  ∃ a' t,
    buy get_share_price 2 "AAPL" 1 a = (Return tt, a') ∧
    float_is (cash_balance a) 18014398509482140 ∧
    float_is (cash_balance a') (18014398509482140 - 148) ∧
    last (transactions a') = Some t ∧ float_is (amount t) (- 150).
Proof. eexists _, _. split_and!; vm_compute; reflexivity. Qed.




(** ** The cash balance *)

Lemma prices_nonneg symbol price :
  prices !! symbol = Some price → (price <? 0)%float = false.
Proof.
  revert symbol price. change (map_Forall (λ _ price, (price <? 0)%float = false) prices).
  by apply (bool_decide_unpack _); vm_compute.
Qed.

Lemma nonneg_cases (x : float) :
  (x <? 0)%float = false → (0 <=? x)%float = true ∨ is_nan x = true.
Proof.
  rewrite ltb_0_nonneg. intros [Hnan|Hle]%SFnonneg_leb.
  - right. unfold is_nan. rewrite FloatAxioms.eqb_spec, Hnan. done.
  - left. by rewrite FloatAxioms.leb_spec.
Qed.

Lemma step_cash_nonneg now o a :
  (cash_balance a <? 0)%float = false →
  (cash_balance (step now o a).2 <? 0)%float = false.
Proof.
  intros Hcash. step_analysis o; try done;
    try (by apply add_nonneg, leb_0_ltb_0); try (by apply sub_nonneg).
  all: apply add_nonneg; [done|]; apply mul_nonneg;
    [by apply (prices_nonneg symbol), get_share_price_Return
    |apply (float_of_int_nonneg quantity); [lia|done]].
Qed.

(** C2, as the code has it. In every reachable account the cash balance
    does not compare below zero: it is greater than or equal to zero, or it
    is NaN. *)
Theorem cash_balance_never_negative a :
  reachable a →
  (cash_balance a <? 0)%float = false ∧
  ((0 <=? cash_balance a)%float = true ∨ is_nan (cash_balance a) = true).
Proof.
  intros Ha. assert ((cash_balance a <? 0)%float = false) as Hcash.
  { induction Ha as [account_id user_name|now o a _ IH]; [done|].
    by apply step_cash_nonneg. }
  split; [done|]. by apply nonneg_cases.
Qed.

Lemma cash_balance_never_negative_witness :
  let a := run [(1, Deposit 1000%float); (2, Buy "AAPL" 5); (3, Withdraw 250%float)]
             (init "12345" "Test User") in
  (cash_balance a <? 0)%float = false.
Proof.
  intros a. apply cash_balance_never_negative, run_reachable, reachable_init.
Defined.

(** C2, as worded, fails on NaN: after two deposits of [1e308] the cash
    balance is [+inf], the purchase of [10^307] shares of AAPL costs [+inf]
    and is accepted, and the cash balance becomes [inf - inf], which is not
    greater than or equal to zero. *)
Lemma cash_balance_not_a_number :
  let a := run [(1, Deposit float_1e308); (2, Deposit float_1e308);
                (3, Buy "AAPL" (10 ^ 307))] (init "12345" "Test User") in
  reachable a ∧
  (0 <=? cash_balance a)%float = false ∧ is_nan (cash_balance a) = true ∧
  length (transactions a) = 3%nat.
Proof.
  split_and!; [apply run_reachable; constructor|vm_compute; reflexivity..].
Qed.

(** ** Deposits *)

Lemma step_total_deposits now o a :
  total_deposits (step now o a).2 =
  match o with
  | Deposit amount =>
      if succeeds (step now o a) then (total_deposits a + amount)%float
      else total_deposits a
  | _ => total_deposits a
  end.
Proof.
  destruct o as [amount|amount|symbol quantity|symbol quantity]; simpl;
    rewrite ?deposit_eq, ?withdraw_eq, ?buy_eq, ?sell_eq; simpl.
  - by destruct (amount <=? 0)%float.
  - destruct (amount <=? 0)%float; [done|].
    by destruct (cash_balance a <? amount)%float.
  - case_decide; [done|]. destruct (get_share_price symbol); [|done].
    destruct (float_mul_int _ _) as [total_cost|]; [|done].
    by destruct (cash_balance a <? total_cost)%float.
  - case_decide; [done|]. case_decide; [done|].
    destruct (get_share_price symbol); [|done].
    by destruct (float_mul_int _ _).
Qed.

Lemma step_total_deposits_nonneg now o a :
  (total_deposits a <? 0)%float = false →
  (total_deposits (step now o a).2 <? 0)%float = false.
Proof.
  intros Htd. rewrite step_total_deposits. destruct o as [amount| | |]; try done.
  destruct (succeeds _) eqn:Hs; [|done]. apply add_nonneg; [done|].
  simpl in Hs. rewrite deposit_eq in Hs.
  destruct (amount <=? 0)%float eqn:Hamount; [done|]. by apply leb_0_ltb_0.
Qed.

Lemma reachable_total_deposits_nonneg a :
  reachable a → (total_deposits a <? 0)%float = false.
Proof.
  induction 1 as [account_id user_name|now o a _ IH]; [done|].
  by apply step_total_deposits_nonneg.
Qed.

Lemma step_total_deposits_mono now o a :
  (total_deposits a <? 0)%float = false →
  (total_deposits (step now o a).2 <? total_deposits a)%float = false.
Proof.
  intros Htd. rewrite step_total_deposits.
  destruct o as [amount| | |]; try apply ltb_irrefl.
  destruct (succeeds _) eqn:Hs; [|apply ltb_irrefl]. apply add_ge; [done|].
  simpl in Hs. rewrite deposit_eq in Hs. by destruct (amount <=? 0)%float.
Qed.

Lemma step_total_deposits_nan now o a :
  is_nan (total_deposits a) = true → is_nan (total_deposits (step now o a).2) = true.
Proof.
  intros Hnan. rewrite step_total_deposits. destruct o as [amount| | |]; try done.
  destruct (succeeds _); [|done]. by apply add_nan.
Qed.

Lemma run_total_deposits_nan calls : ∀ a,
  is_nan (total_deposits a) = true → is_nan (total_deposits (run calls a)) = true.
Proof.
  induction calls as [|[now o] calls IH]; intros a Hnan; simpl; [done|].
  by apply IH, step_total_deposits_nan.
Qed.

Lemma run_total_deposits_mono calls : ∀ a,
  (total_deposits a <? 0)%float = false →
  (total_deposits (run calls a) <? total_deposits a)%float = false.
Proof.
  induction calls as [|[now o] calls IH]; intros a Htd; simpl; [apply ltb_irrefl|].
  pose proof (step_total_deposits_nonneg now o a Htd) as Htd1.
  pose proof (step_total_deposits_mono now o a Htd) as Hstep.
  specialize (IH _ Htd1).
  destruct (is_nan (total_deposits (step now o a).2)) eqn:Hnan.
  - apply (run_total_deposits_nan calls) in Hnan. apply is_nan_Prim2SF in Hnan.
    rewrite FloatAxioms.ltb_spec, Hnan. done.
  - rewrite FloatAxioms.ltb_spec in *.
    apply (SFltb_false_trans _ (Prim2SF (total_deposits (step now o a).2))); [|done..].
    intros Hn. apply is_nan_Prim2SF in Hn. congruence.
Qed.

(** C8, as the code has it. A deposit of an amount that is not below or
    equal to zero completes, replaces the cash balance and the total of
    deposits by their binary64 sums with the amount and appends a DEPOSIT
    transaction with that amount; any other amount is refused with
    [ValueError]. No other call, completed or rejected, changes the total of
    deposits. Along a sequence of calls on a reachable account the total of
    deposits never compares below an earlier value: it is greater than or
    equal to it, or it has become NaN. *)
Theorem total_deposits_only_by_deposit :
  (∀ now amount a, (amount <=? 0)%float = false →
     ∃ a', deposit now amount a = (Return tt, a') ∧
           cash_balance a' = (cash_balance a + amount)%float ∧
           total_deposits a' = (total_deposits a + amount)%float ∧
           transactions a' =
             transactions a ++ [mkTransaction now DEPOSIT amount None None None] ∧
           holdings a' = holdings a) ∧
  (∀ now amount a, (amount <=? 0)%float = true →
     deposit now amount a = (Raise (ValueError "Deposit amount must be positive."), a)) ∧
  (∀ now o a,
     total_deposits (step now o a).2 =
     match o with
     | Deposit amount =>
         if succeeds (step now o a) then (total_deposits a + amount)%float
         else total_deposits a
     | Withdraw _ | Buy _ _ | Sell _ _ => total_deposits a
     end) ∧
  (∀ calls a, reachable a →
     (total_deposits (run calls a) <? total_deposits a)%float = false ∧
     ((total_deposits a <=? total_deposits (run calls a))%float = true ∨
      is_nan (total_deposits (run calls a)) = true)).
Proof.
  split_and!.
  - intros now amount a Hpos. rewrite deposit_eq, Hpos. by eexists.
  - intros now amount a Hneg. by rewrite deposit_eq, Hneg.
  - apply step_total_deposits.
  - intros calls a Ha. apply reachable_total_deposits_nonneg in Ha.
    pose proof (run_total_deposits_mono calls a Ha) as Hmono. split; [done|].
    destruct (is_nan (total_deposits (run calls a))) eqn:Hnan; [by right|left].
    rewrite FloatAxioms.leb_spec. rewrite FloatAxioms.ltb_spec in Hmono.
    apply SFltb_false_leb; [| |done].
    + intros Hn. apply is_nan_Prim2SF, (run_total_deposits_nan calls) in Hn. congruence.
    + intros Hn. apply is_nan_Prim2SF in Hn. congruence.
Qed.

Lemma total_deposits_only_by_deposit_witness :
  (∃ a', deposit 1 500%float (init "12345" "Test User") = (Return tt, a') ∧
         cash_balance a' = 500%float ∧ total_deposits a' = 500%float) ∧
  let a := run [(1, Deposit 500%float)] (init "12345" "Test User") in
  let b := run [(2, Buy "AAPL" 1); (3, Deposit 0.5%float); (4, Withdraw 9%float)] a in
  (total_deposits a <=? total_deposits b)%float = true.
Proof.
  destruct total_deposits_only_by_deposit as (Hdep & _ & _ & Hmono). split.
  - destruct (Hdep 1 500%float (init "12345" "Test User")) as (a' & H1 & H2 & H3 & _);
      [done|].
    exists a'. split_and!; [done|by rewrite H2|by rewrite H3].
  - intros a b.
    destruct (Hmono [(2, Buy "AAPL" 1); (3, Deposit 0.5%float); (4, Withdraw 9%float)] a)
      as [_ [Hle|Hnan]]; [apply run_reachable, reachable_init|done|].
    vm_compute in Hnan. discriminate.
Defined.

(** C8, as worded, fails where the sum is rounded, and on NaN: after a
    deposit of [1e16] a deposit of 1 completes and appends its transaction,
    but leaves the cash balance and the total of deposits at [1e16]; and a
    deposit of NaN is accepted, after which the total of deposits is not
    greater than or equal to what it was. *)
Lemma deposit_not_exact :
  let a := (deposit 1 10000000000000000%float (init "12345" "Test User")).2 in
  (∃ a', deposit 2 1%float a = (Return tt, a') ∧
         length (transactions a') = S (length (transactions a)) ∧
         float_is (total_deposits a) (10 ^ 16) ∧
         float_is (total_deposits a') (10 ^ 16) ∧
         float_is (cash_balance a') (10 ^ 16)) ∧
  (∃ a', deposit 2 nan a = (Return tt, a') ∧
         (total_deposits a <=? total_deposits a')%float = false).
Proof.
  split; eexists; split_and!; vm_compute; reflexivity.
Qed.

(** ** A purchase followed by the sale of the same shares *)

(** C10, as the code has it. On a reachable account, when a purchase of
    [quantity] shares of a symbol completes, the sale of the same [quantity]
    right after it completes too and brings the holdings back to what they
    were before the purchase; the total of deposits is untouched and the
    transactions are the former ones followed by the BUY and the SELL
    records. The cash balance becomes the binary64 result of subtracting the
    cost and adding it again, [(cash - cost) + cost]. *)
Theorem buy_then_sell_restores now now' symbol quantity a a1 :
  reachable a →
  buy get_share_price now symbol quantity a = (Return tt, a1) →
  ∃ price fq a2,
    get_share_price symbol = Return price ∧ 0 < quantity ∧
    float_of_int quantity = Return fq ∧
    sell get_share_price now' symbol quantity a1 = (Return tt, a2) ∧
    cash_balance a2 = (cash_balance a - price * fq + price * fq)%float ∧
    holdings a2 = holdings a ∧
    total_deposits a2 = total_deposits a ∧
    transactions a2 =
      transactions a ++
      [mkTransaction now BUY (- (price * fq))%float
         (Some symbol) (Some quantity) (Some price);
       mkTransaction now' SELL (price * fq)%float
         (Some symbol) (Some quantity) (Some price)].
Proof.
  intros Ha. destruct (reachable_holdings a Ha) as (Hwf & Hpos & _).
  rewrite buy_eq. case_decide as Hq; [done|].
  destruct (get_share_price symbol) as [price|] eqn:Hprice; [|done].
  unfold float_mul_int.
  destruct (float_of_int quantity) as [fq|] eqn:Hfq; [|done].
  destruct (cash_balance a <? price * fq)%float; [done|]. intros [= <-].
  exists price, fq. rewrite sell_eq, decide_False by done. simpl.
  rewrite !dict_lookup_set, !(decide_True (P := symbol = symbol)) by done; simpl.
  assert (0 ≤ default 0 (dict_lookup symbol (holdings a))) as Hheld0.
  { destruct (dict_lookup symbol (holdings a)) as [held|] eqn:Hheld; simpl; [|done].
    apply Hpos in Hheld. lia. }
  rewrite decide_False by lia. rewrite Hprice. unfold float_mul_int. rewrite Hfq.
  eexists. split_and!; [done|lia|done|done|simpl..].
  - done.
  - destruct (dict_lookup symbol (holdings a)) as [held|] eqn:Hheld; simpl.
    + apply Hpos in Hheld as Hh. rewrite decide_False by lia.
      rewrite dict_set_set. replace (held + quantity - quantity) with held by lia.
      by apply dict_set_id.
    + rewrite decide_True by lia. rewrite dict_del_set. by apply dict_del_id.
  - done.
  - by rewrite <- app_assoc.
Qed.

Lemma buy_then_sell_restores_witness :
  let a := run [(1, Deposit 2000%float); (2, Buy "AAPL" 3)] (init "12345" "Test User") in
  ∃ a1 a2,
    buy get_share_price 3 "AAPL" 10 a = (Return tt, a1) ∧
    sell get_share_price 4 "AAPL" 10 a1 = (Return tt, a2) ∧
    cash_balance a2 = 1550%float ∧ holdings a2 = holdings a.
Proof.
  intros a.
  assert (∃ a1, buy get_share_price 3 "AAPL" 10 a = (Return tt, a1)) as [a1 Hbuy].
  { rewrite buy_eq. by eexists. }
  destruct (buy_then_sell_restores 3 4 "AAPL" 10 a a1)
    as (p & fq & a2 & Hp & _ & Hfq & Hs & Hc & Hh & _).
  - apply run_reachable. constructor.
  - done.
  - exists a1, a2. split_and!; [done..| |done].
    rewrite Hc. vm_compute in Hp, Hfq. by simplify_eq.
Defined.

(** C10, as worded, fails on the cash balance: from 18014398509482140 the
    purchase of one share of AAPL and its sale leave 18014398509482144. *)
Lemma buy_then_sell_changes_cash :
  let a := (deposit 1 18014398509482140%float (init "12345" "Test User")).2 in
  ∃ a1 a2,
    buy get_share_price 2 "AAPL" 1 a = (Return tt, a1) ∧
    sell get_share_price 3 "AAPL" 1 a1 = (Return tt, a2) ∧
    float_is (cash_balance a) 18014398509482140 ∧
    float_is (cash_balance a2) 18014398509482144 ∧
    (cash_balance a2 =? cash_balance a)%float = false.
Proof. eexists _, _. split_and!; vm_compute; reflexivity. Qed.

(** ** Valuation *)

Lemma holdings_loop_eq items : ∀ holdings_value0 a,
  holdings_loop get_share_price items holdings_value0 a =
  match holdings_value_from holdings_value0 items with
  | Return v => (Return v, a)
  | Raise e => (Raise e, a)
  end.
Proof.
  induction items as [|[symbol quantity] items IH]; intros acc a; simpl; [done|].
  unfold mbind, M_bind, try_except_InvalidSymbolError, call, mret, M_ret; simpl.
  unfold get_share_price, float_mul_int.
  destruct (prices !! symbol) as [price|]; simpl; [|apply IH].
  destruct (float_of_int quantity) as [fq|e] eqn:Hfq; simpl; [apply IH|].
  unfold float_of_int in Hfq.
  by destruct (binary_normalize prec emax quantity 0 false); simplify_eq.
Qed.

Lemma get_portfolio_value_eq a :
  get_portfolio_value get_share_price a =
  match holdings_value_from 0 (holdings a) with
  | Return v => (Return (cash_balance a + v)%float, a)
  | Raise e => (Raise e, a)
  end.
Proof.
  unfold get_portfolio_value, mbind, M_bind, read; simpl.
  rewrite holdings_loop_eq. by destruct (holdings_value_from 0 (holdings a)).
Qed.

Lemma holdings_value_from_Raise d : ∀ total e,
  holdings_value_from total d = Raise e →
  e = OverflowError "int too large to convert to float" ∧
  ∃ symbol quantity, (symbol, quantity) ∈ d ∧ float_of_int quantity = Raise e.
Proof.
  induction d as [|[symbol quantity] d IH]; intros total e; simpl; [done|].
  destruct (prices !! symbol) as [price|].
  - destruct (float_of_int quantity) as [fq|e'] eqn:Hfq.
    + intros H. destruct (IH _ _ H) as (-> & s & q & Hin & Hq).
      split; [done|]. exists s, q. split; [by right|done].
    + intros [= ->]. split.
      * unfold float_of_int in Hfq.
        by destruct (binary_normalize prec emax quantity 0 false); simplify_eq.
      * exists symbol, quantity. split; [by left|done].
  - intros H. destruct (IH _ _ H) as (-> & s & q & Hin & Hq).
    split; [done|]. exists s, q. split; [by right|done].
Qed.

(** C6, as the code has it. [get_portfolio_value] returns the account as
    it found it. Its result is the binary64 sum of the cash balance and of
    the value of the holdings, itself accumulated from [0.0] in the order
    of the entries, each term the binary64 product of the price and the
    converted quantity, an entry whose symbol the price helper rejects being
    skipped. It raises only when a held quantity is too large to convert to
    a [float], and then [OverflowError]; it returns normally when every
    held quantity converts. *)
Theorem portfolio_value_is_cash_plus_holdings :
  (∀ a, get_portfolio_value get_share_price a =
        match holdings_value_from 0 (holdings a) with
        | Return v => (Return (cash_balance a + v)%float, a)
        | Raise e => (Raise e, a)
        end) ∧
  (∀ a e a', get_portfolio_value get_share_price a = (Raise e, a') →
     a' = a ∧ e = OverflowError "int too large to convert to float" ∧
     ∃ symbol quantity, (symbol, quantity) ∈ holdings a ∧
                        float_of_int quantity = Raise e) ∧
  (∀ total symbol quantity d,
     holdings_value_from total ((symbol, quantity) :: d) =
     match get_share_price symbol, float_of_int quantity with
     | Raise _, _ => holdings_value_from total d
     | Return price, Return fq => holdings_value_from (total + price * fq)%float d
     | Return price, Raise e => Raise e
     end).
Proof.
  split_and!.
  - apply get_portfolio_value_eq.
  - intros a e a'. rewrite get_portfolio_value_eq.
    destruct (holdings_value_from 0 (holdings a)) as [v|e'] eqn:Hv; [done|].
    intros [= -> ->]. split; [done|]. by apply holdings_value_from_Raise in Hv.
  - intros total symbol quantity d. simpl. unfold get_share_price.
    by destruct (prices !! symbol).
Qed.

Lemma portfolio_value_is_cash_plus_holdings_witness :
  let a := mkAccount "12345" "Test User" 750%float 2000%float
             [("AAPL", 5); ("DELISTED", 7); ("TSLA", 2)] [] in
  get_portfolio_value get_share_price a = (Return 2000%float, a).
Proof.
  intros a.
  destruct portfolio_value_is_cash_plus_holdings as (-> & _).
  vm_compute. reflexivity.
Defined.

(** C6, as worded, fails in a reachable state: after two deposits of
    [1e308] and two purchases of [10^308] shares of AAPL the valuation
    raises [OverflowError]; and where it returns, the sum is rounded: with a
    cash balance of 18014398509481992 and one share of AAPL at 150 it is
    18014398509482144. *)
Lemma portfolio_value_raises :
  let a := run [(1, Deposit float_1e308); (2, Deposit float_1e308);
                (3, Buy "AAPL" (10 ^ 308)); (4, Buy "AAPL" (10 ^ 308))]
             (init "12345" "Test User") in
  let b := run [(1, Deposit 18014398509482140%float); (2, Buy "AAPL" 1)]
             (init "12345" "Test User") in
  reachable a ∧
  get_portfolio_value get_share_price a =
    (Raise (OverflowError "int too large to convert to float"), a) ∧
  float_is (cash_balance b) 18014398509481992 ∧ holdings b = [("AAPL", 1)] ∧
  ∃ v, get_portfolio_value get_share_price b = (Return v, b) ∧
       float_is v (18014398509481992 + 152).
Proof.
  split_and!; [apply run_reachable; constructor|try (vm_compute; reflexivity)..].
  eexists. split; vm_compute; reflexivity.
Qed.

Lemma get_profit_loss_eq share_price_of a :
  get_profit_loss share_price_of a =
  match get_portfolio_value share_price_of a with
  | (Return current_value, a') => (Return (current_value - total_deposits a')%float, a')
  | (Raise e, a') => (Raise e, a')
  end.
Proof.
  unfold get_profit_loss, mbind, M_bind.
  by destruct (get_portfolio_value share_price_of a) as [[v|e] a'].
Qed.



(** ** Copies handed to the caller *)

Import Objects.

Lemma records_weaken (h0 h : store) l ts :
  h0 ⊆ h → records h0 l = Some ts → records h l = Some ts.
Proof.
  intros Hsub. revert ts. induction l as [|x l IH]; intros ts; [done|].
  simpl. destruct (h0 !! x) as [o|] eqn:Hx; [|done].
  rewrite (lookup_weaken _ _ _ _ Hx Hsub). simpl.
  destruct (as_transaction o); [|done]. simpl.
  destruct (records h0 l) as [ts'|]; [|done].
  by rewrite (IH ts' eq_refl).
Qed.

(** The state of an account only reads the objects it refers to. *)
Lemma state_weaken (h0 h : store) self a :
  h0 ⊆ h → state h0 self = Some a → state h self = Some a.
Proof.
  intros Hsub. unfold state.
  destruct (h0 !! self_holdings self) as [o|] eqn:Hd; [|done].
  rewrite (lookup_weaken _ _ _ _ Hd Hsub). csimpl.
  destruct (as_dict o) as [d|]; [|done]. csimpl.
  destruct (h0 !! self_transactions self) as [o'|] eqn:Hl; [|done].
  rewrite (lookup_weaken _ _ _ _ Hl Hsub). csimpl.
  destruct (as_list o') as [l|]; [|done]. csimpl.
  destruct (records h0 l) as [ts|] eqn:Hts; [|done].
  by rewrite (records_weaken _ _ _ _ Hsub Hts).
Qed.

Lemma fresh_None (h0 h : store) : h0 ⊆ h → h0 !! fresh (dom h) = None.
Proof.
  intros Hsub. apply (lookup_weaken_None _ h); [|done].
  apply not_elem_of_dom, is_fresh.
Qed.

(** Actions on a container [r] created after [h0] leave [h0] in place. *)
Lemma perform_container_frame (h0 h : store) r act :
  h0 !! r = None → on_container act → h0 ⊆ h → h0 ⊆ perform r h act.
Proof.
  intros Hr Hc Hsub. destruct act as [o|f|f|i f]; simpl; [| | |done].
  - by apply insert_subseteq_r; [apply fresh_None|].
  - destruct (h !! r) as [[]|]; try done. by apply insert_subseteq_r.
  - destruct (h !! r) as [[]|]; try done. by apply insert_subseteq_r.
Qed.

(** On a dict there are no items with fields: every action is one on the
    container. *)
Lemma perform_dict_frame (h0 h : store) r act :
  h0 !! r = None → h0 ⊆ h → (∃ d, h !! r = Some (Dict d)) →
  h0 ⊆ perform r h act ∧ ∃ d, perform r h act !! r = Some (Dict d).
Proof.
  intros Hr Hsub [d Hd]. destruct act as [o|f|f|i f]; simpl; rewrite ?Hd.
  - split; [by apply insert_subseteq_r; [apply fresh_None|]|].
    exists d. rewrite lookup_insert_ne; [done|].
    intros Heq. pose proof (is_fresh (dom h)) as Hf. rewrite Heq in Hf.
    by apply not_elem_of_dom in Hf; rewrite Hd in Hf.
  - split; [by apply insert_subseteq_r|]. exists (f d). apply lookup_insert_eq.
  - split; [done|by exists d].
  - split; [done|by exists d].
Qed.

Lemma dict_actions_frame (h0 : store) r acts : ∀ h,
  h0 !! r = None → h0 ⊆ h → (∃ d, h !! r = Some (Dict d)) →
  h0 ⊆ foldl (perform r) h acts.
Proof.
  induction acts as [|act acts IH]; intros h Hr Hsub Hd; simpl; [done|].
  destruct (perform_dict_frame h0 h r act) as [? ?]; auto.
Qed.

Lemma container_actions_frame (h0 : store) r acts : ∀ h,
  h0 !! r = None → Forall on_container acts → h0 ⊆ h →
  h0 ⊆ foldl (perform r) h acts.
Proof.
  induction acts as [|act acts IH]; intros h Hr Hall Hsub; simpl; [done|].
  inversion Hall; subst. apply IH; [done..|].
  by apply perform_container_frame.
Qed.

Lemma state_Some_inv h self a :
  state h self = Some a →
  h !! self_holdings self = Some (Dict (holdings a)) ∧
  ∃ l, h !! self_transactions self = Some (List l).
Proof.
  unfold state. destruct (h !! self_holdings self) as [[d| | |]|]; try done.
  csimpl. destruct (h !! self_transactions self) as [[|l| |]|]; try done.
  csimpl. destruct (records h l); [|done]. csimpl. intros [= <-]. eauto.
Qed.

(** C9, as the code has it. The two queries return a new container with
    the entries of the account's own: whatever the caller does to the dict
    [get_holdings] returned, and whatever it does to the entries of the list
    [get_transactions] returned (or to objects of its own), the state of the
    account, hence the result of every later query or operation on it, is
    what it was. *)
Theorem queries_return_new_containers h self a :
  state h self = Some a →
  (∃ r h1, get_holdings self h = Some (r, h1) ∧
           h !! r = None ∧ h1 !! r = Some (Dict (holdings a)) ∧
           ∀ acts, state (foldl (perform r) h1 acts) self = Some a) ∧
  (∃ r h1 l, get_transactions self h = Some (r, h1) ∧
             h !! r = None ∧ h !! self_transactions self = Some (List l) ∧
             h1 !! r = Some (List l) ∧
             ∀ acts, Forall on_container acts →
                     state (foldl (perform r) h1 acts) self = Some a).
Proof.
  intros Hst. destruct (state_Some_inv _ _ _ Hst) as (Hd & l & Hl).
  assert (h !! fresh (dom h) = None) as Hfresh by (by apply fresh_None).
  split.
  - unfold get_holdings, dict_copy. rewrite Hd; csimpl.
    eexists _, _. split_and!; [done|done|apply lookup_insert_eq|].
    intros acts. apply (state_weaken h); [|done].
    apply dict_actions_frame; [done|by apply insert_subseteq|].
    eexists. apply lookup_insert_eq.
  - unfold get_transactions, list_copy. rewrite Hl; csimpl.
    eexists _, _, l. split_and!; [done|done|done|apply lookup_insert_eq|].
    intros acts Hall. apply (state_weaken h); [|done].
    apply container_actions_frame; [done|done|by apply insert_subseteq].
Qed.

Lemma queries_return_new_containers_witness :
  (∃ r h1, get_holdings example_self example_store = Some (r, h1) ∧
           state (foldl (perform r) h1 [MutateDict (dict_set "AAPL" 99)]) example_self
           = state example_store example_self) ∧
  (∃ r h1, get_transactions example_self example_store = Some (r, h1) ∧
           state (foldl (perform r) h1
                    [New (Foreign "a fake transaction");
                     MutateList (λ l, l ++ [fresh (dom h1)])]) example_self
           = state example_store example_self).
Proof.
  assert (∃ a, state example_store example_self = Some a) as [a Ha]
    by (by eexists).
  destruct (queries_return_new_containers example_store example_self a Ha)
    as ((r & h1 & Hget & _ & _ & Hacts) & (r' & h1' & l & Hget' & _ & _ & _ & Hacts')).
  split.
  - exists r, h1. split; [done|]. rewrite Ha. apply Hacts.
  - exists r', h1'. split; [done|]. rewrite Ha. apply Hacts'.
    repeat constructor.
Defined.

(** C9, as worded, fails on the transaction list: the copy refers to the
    account's own [Transaction] objects. After
    [txs = account.get_transactions(); txs[0].amount = 999] the first record
    of the account's history carries 999 where it carried 500. *)
Lemma returned_transactions_are_shared :
  ∃ r h1,
    get_transactions example_self example_store = Some (r, h1) ∧
    let h2 := perform r h1 (MutateItem 0 (set_amount 999%float)) in
    history_amounts example_store example_self = Some [500; -300]%float ∧
    history_amounts h2 example_self = Some [999; -300]%float ∧
    state h2 example_self ≠ state example_store example_self.
Proof.
  eexists _, _. split; [vm_compute; reflexivity|].
  split_and!; [vm_compute; reflexivity..|].
  intros H.
  apply (f_equal (λ s, a ← s; t ← head (transactions a);
                       Some (amount t =? 500)%float)) in H.
  vm_compute in H. congruence.
Qed.

(** * Further properties of the ledger *)

(** ** Withdrawals *)

(** X1. A withdrawal of an amount that is not below or equal to zero and
    that the cash balance does not compare below replaces the cash balance
    by the binary64 difference of the two, which does not compare below
    zero, leaves the total of deposits and the holdings alone and appends a
    WITHDRAW transaction with the negated amount; when the cash balance
    compares below the amount the call raises [InsufficientFundsError] on an
    unchanged account. *)
Theorem withdraw_effect now amount a :
  (amount <=? 0)%float = false →
  ((cash_balance a <? amount)%float = false →
     ∃ a', withdraw now amount a = (Return tt, a') ∧
           cash_balance a' = (cash_balance a - amount)%float ∧
           (cash_balance a' <? 0)%float = false ∧
           total_deposits a' = total_deposits a ∧
           holdings a' = holdings a ∧
           transactions a' =
             transactions a ++
             [mkTransaction now WITHDRAW (- amount)%float None None None]) ∧
  ((cash_balance a <? amount)%float = true →
     withdraw now amount a =
     (Raise (InsufficientFundsError
               "Cannot withdraw more than the available cash balance."), a)).
Proof.
  intros Hamount. rewrite withdraw_eq, Hamount. split.
  - intros Hcash. rewrite Hcash. eexists. split_and!; try done. simpl.
    by apply sub_nonneg.
  - by intros ->.
Qed.

Lemma withdraw_effect_witness :
  let a := (deposit 1 1000%float (init "12345" "Test User")).2 in
  (∃ a', withdraw 2 300%float a = (Return tt, a') ∧ cash_balance a' = 700%float) ∧
  withdraw 2 1500%float a =
    (Raise (InsufficientFundsError
              "Cannot withdraw more than the available cash balance."), a).
Proof.
  intros a. destruct (withdraw_effect 2 300%float a) as (Hok & _); [done|].
  destruct (withdraw_effect 2 1500%float a) as (_ & Hlow); [done|].
  split.
  - destruct Hok as (a' & Hw & Hc & _); [done|]. exists a'. by rewrite Hc.
  - by apply Hlow.
Defined.

(** ** The transaction list as a journal *)

Lemma step_transactions now o a :
  (step now o a).1 = Return tt ∧
  (∃ t, transactions (step now o a).2 = transactions a ++ [t] ∧
        timestamp t = now ∧ type t = recorded_type o)
  ∨ (∃ e, (step now o a).1 = Raise e) ∧ (step now o a).2 = a.
Proof. step_analysis o; eauto 8. Qed.

Lemma run_timestamps calls : ∀ a,
  ∃ new, transactions (run calls a) = transactions a ++ new ∧
         (timestamp <$> new) `sublist_of` calls.*1.
Proof.
  induction calls as [|[now o] calls IH]; intros a; simpl.
  - exists []. by rewrite app_nil_r.
  - destruct (IH (step now o a).2) as (new & -> & Hsub).
    destruct (step_transactions now o a) as [(_ & t & -> & Ht & _)|(_ & ->)].
    + exists (t :: new). rewrite <- app_assoc. split; [done|].
      simpl. rewrite Ht. by constructor.
    + exists new. split; [done|]. by constructor.
Qed.

Lemma StronglySorted_sublist {A} (R : relation A) (l1 l2 : list A) :
  l1 `sublist_of` l2 → StronglySorted R l2 → StronglySorted R l1.
Proof.
  induction 1 as [|x l1 l2 Hsub IH|x l1 l2 Hsub IH]; intros Hl2; [done| |].
  - apply StronglySorted_inv in Hl2 as [Hl2 Hx]. constructor; [by apply IH|].
    rewrite Forall_forall in Hx. apply Forall_forall.
    intros y Hy. eapply Hx, elem_of_sublist; eauto.
  - apply StronglySorted_inv in Hl2 as [Hl2 _]. by apply IH.
Qed.

(** X2. The transaction list is a journal. A call that completes appends
    one record, stamped with the time of the call and typed after the
    operation, and a call that raises appends none; so the records present
    before a sequence of calls are still there, unchanged and in place, after
    it, and when the calls come at non-decreasing times the journal of an
    account is in chronological order. *)
Theorem transactions_append_only :
  (∀ now o a,
     (step now o a).1 = Return tt ∧
     (∃ t, transactions (step now o a).2 = transactions a ++ [t] ∧
           timestamp t = now ∧ type t = recorded_type o)
     ∨ (∃ e, (step now o a).1 = Raise e) ∧ (step now o a).2 = a) ∧
  (∀ calls a, transactions a `prefix_of` transactions (run calls a)) ∧
  (∀ calls account_id user_name,
     Sorted Z.le calls.*1 →
     Sorted Z.le (timestamp <$> transactions (run calls (init account_id user_name)))).
Proof.
  split_and!.
  - apply step_transactions.
  - intros calls a. destruct (run_timestamps calls a) as (new & -> & _).
    by apply prefix_app_r.
  - intros calls account_id user_name Hsorted.
    destruct (run_timestamps calls (init account_id user_name)) as (new & -> & Hsub).
    simpl. apply StronglySorted_Sorted.
    apply (StronglySorted_sublist _ _ _ Hsub).
    by apply Sorted_StronglySorted; [apply _|].
Qed.

Lemma transactions_append_only_witness :
  Sorted Z.le
    (timestamp <$>
     transactions
       (run [(1, Deposit 100%float); (2, Withdraw 500%float); (2, Buy "AAPL" 0);
             (5, Withdraw 40%float)] (init "12345" "Test User"))).
Proof.
  destruct transactions_append_only as (_ & _ & Hsorted).
  apply Hsorted. repeat constructor; simpl; lia.
Defined.

(** ** The holdings and the journal *)

Lemma net_quantity_snoc s ts t :
  net_quantity s (ts ++ [t]) = net_quantity s ts + traded s t.
Proof.
  unfold net_quantity. induction ts as [|t' ts IH]; simpl; [lia|].
  rewrite IH. lia.
Qed.

Lemma step_net_quantity now o a s :
  default 0 (dict_lookup s (holdings (step now o a).2)) -
  net_quantity s (transactions (step now o a).2) =
  default 0 (dict_lookup s (holdings a)) - net_quantity s (transactions a).
Proof.
  step_analysis o; rewrite ?net_quantity_snoc; unfold traded; simpl;
    rewrite ?dict_lookup_set, ?dict_lookup_del;
    try done; try lia;
    repeat (case_decide; simplify_eq; simpl); lia.
Qed.

(** X4. The holdings are what the journal says: in every reachable account
    the quantity held of a symbol (zero when it has no entry) is the total
    quantity of its BUY records minus the total quantity of its SELL
    records. *)
Theorem holdings_are_net_trades a :
  reachable a →
  ∀ s, default 0 (dict_lookup s (holdings a)) = net_quantity s (transactions a).
Proof.
  induction 1 as [account_id user_name|now o a _ IH]; intros s.
  - done.
  - pose proof (step_net_quantity now o a s) as Hstep.
    rewrite IH in Hstep. lia.
Qed.

Lemma holdings_are_net_trades_witness :
  let a := run [(1, Deposit 5000%float); (2, Buy "GOOGL" 10); (3, Buy "GOOGL" 5);
                (4, Sell "GOOGL" 7); (5, Buy "TSLA" 1)] (init "12345" "Test User") in
  default 0 (dict_lookup "GOOGL" (holdings a)) = net_quantity "GOOGL" (transactions a).
Proof.
  intros a. apply holdings_are_net_trades, run_reachable, reachable_init.
Defined.

(** ** The records of the journal *)

Lemma step_well_formed now o a :
  Forall well_formed (transactions a) →
  Forall well_formed (transactions (step now o a).2).
Proof.
  intros Hwf. step_analysis o; try done;
    apply Forall_app; (split; [done|]); apply Forall_singleton;
    unfold well_formed; simpl.
  all: first [done|by exists amount|idtac].
  all: exists symbol, quantity, price, fq; split_and!; try done; lia.
Qed.

(** X5. Every record of a reachable account has the shape its call site
    gives it: a DEPOSIT carries an amount that is not below or equal to zero
    and no symbol, quantity or price; a WITHDRAW carries the negation of such
    an amount; a BUY or a SELL carries its symbol, a positive quantity, the
    price of the symbol in the table and, as amount, the binary64 product of
    that price and the converted quantity, negated for a BUY. *)
Theorem recorded_transactions_well_formed a :
  reachable a → Forall well_formed (transactions a).
Proof.
  induction 1 as [account_id user_name|now o a _ IH]; [constructor|].
  by apply step_well_formed.
Qed.

Lemma recorded_transactions_well_formed_witness :
  Forall well_formed
    (transactions
       (run [(1, Deposit 1000%float); (2, Buy "AAPL" 2); (3, Sell "AAPL" 1);
             (4, Withdraw 100%float)] (init "12345" "Test User"))).
Proof.
  apply recorded_transactions_well_formed, run_reachable, reachable_init.
Defined.

(** ** Valuation under any binding of the price helper *)

Lemma float_of_int_Raise quantity e :
  float_of_int quantity = Raise e →
  e = OverflowError "int too large to convert to float".
Proof.
  unfold float_of_int.
  by destruct (binary_normalize prec emax quantity 0 false); intros [= <-].
Qed.

Lemma holdings_loop_frame share_price_of items : ∀ holdings_value0 a,
  (holdings_loop share_price_of items holdings_value0 a).2 = a.
Proof.
  induction items as [|[symbol quantity] items IH]; intros acc a; [done|].
  simpl. unfold mbind, M_bind, try_except_InvalidSymbolError, call, mret, M_ret; simpl.
  destruct (share_price_of symbol) as [price|[]]; simpl; try done; try apply IH.
  destruct (float_mul_int price quantity) as [value|e] eqn:Hv; simpl; [apply IH|].
  unfold float_mul_int in Hv. destruct (float_of_int quantity) eqn:Hfq; [done|].
  injection Hv as <-. by pose proof (float_of_int_Raise _ _ Hfq) as ->.
Qed.

Lemma holdings_loop_Raise share_price_of items : ∀ holdings_value0 a e,
  (holdings_loop share_price_of items holdings_value0 a).1 = Raise e →
  (∀ msg, e ≠ InvalidSymbolError msg) ∧
  ∃ symbol quantity, (symbol, quantity) ∈ items ∧
    (share_price_of symbol = Raise e ∨
     ∃ price, share_price_of symbol = Return price ∧ float_of_int quantity = Raise e).
Proof.
  induction items as [|[symbol quantity] items IH]; intros acc a e; [done|].
  simpl. unfold mbind, M_bind, try_except_InvalidSymbolError, call, mret, M_ret; simpl.
  destruct (share_price_of symbol) as [price|e'] eqn:Hp; simpl.
  - unfold float_mul_int.
    destruct (float_of_int quantity) as [fq|e'] eqn:Hfq; simpl.
    + intros (Hne & s & q & Hin & ?)%IH. split; [done|]. exists s, q. split; [by right|done].
    + pose proof (float_of_int_Raise _ _ Hfq) as ->. simpl. intros [= <-].
      split; [done|]. exists symbol, quantity. split; [by left|]. right. by exists price.
  - destruct e'; simpl;
      try (intros [= <-]; split; [done|]; exists symbol, quantity; split; [by left|by left]).
    intros (Hne & s & q & Hin & ?)%IH. split; [done|]. exists s, q. split; [by right|done].
Qed.

(** X8. Valuation only reads. For any function of the symbol bound to the
    price helper, [get_portfolio_value] and [get_profit_loss] return the
    account as they found it. Only [InvalidSymbolError] is swallowed: when
    the valuation raises, the exception is not an [InvalidSymbolError], and
    it is one the helper raised on a held symbol or the [OverflowError] of
    converting a held quantity; when neither happens on the holdings the
    valuation returns normally. *)
Theorem valuation_only_reads share_price_of a :
  (get_portfolio_value share_price_of a).2 = a ∧
  (get_profit_loss share_price_of a).2 = a ∧
  (∀ e, (get_portfolio_value share_price_of a).1 = Raise e →
     (∀ msg, e ≠ InvalidSymbolError msg) ∧
     ∃ symbol quantity, (symbol, quantity) ∈ holdings a ∧
       (share_price_of symbol = Raise e ∨
        ∃ price, share_price_of symbol = Return price ∧
                 float_of_int quantity = Raise e)) ∧
  ((∀ symbol quantity, (symbol, quantity) ∈ holdings a →
      (∀ e, share_price_of symbol = Raise e → ∃ msg, e = InvalidSymbolError msg) ∧
      ∃ fq, float_of_int quantity = Return fq) →
   ∃ v, (get_portfolio_value share_price_of a).1 = Return v).
Proof.
  assert ((get_portfolio_value share_price_of a).2 = a) as Hframe.
  { unfold get_portfolio_value, mbind, M_bind, read, mret, M_ret; simpl.
    pose proof (holdings_loop_frame share_price_of (holdings a) 0 a) as H.
    by destruct (holdings_loop _ _ _ _) as [[v|e] a']; simpl in *. }
  assert (∀ e, (get_portfolio_value share_price_of a).1 = Raise e →
            (holdings_loop share_price_of (holdings a) 0 a).1 = Raise e) as Hloop.
  { intros e. unfold get_portfolio_value, mbind, M_bind, read, mret, M_ret; simpl.
    by destruct (holdings_loop _ _ _ _) as [[v'|e'] a']. }
  split_and!.
  - done.
  - rewrite get_profit_loss_eq.
    by destruct (get_portfolio_value share_price_of a) as [[v|e] a'].
  - intros e He. by apply Hloop, holdings_loop_Raise in He.
  - intros Hok.
    assert (∀ r, (get_portfolio_value share_price_of a).1 = r → ∃ v, r = Return v) as Hr;
      [|by apply Hr].
    intros [v|e] Hr; [by eexists|].
    apply Hloop, holdings_loop_Raise in Hr as (Hne & s & q & Hin & Hcase).
    destruct (Hok s q Hin) as (Hsp & fq & Hfq).
    destruct Hcase as [Hp|(price & _ & Hq)]; [|congruence].
    destruct (Hsp e Hp) as [msg ->]. by destruct (Hne msg).
Qed.

Lemma valuation_only_reads_witness :
  let a := run [(1, Deposit 2000%float); (2, Buy "GOOGL" 2)] (init "12345" "Test User") in
  (get_portfolio_value (patched_share_price 160) a).2 = a ∧
  ∃ v, (get_portfolio_value get_share_price a).1 = Return v.
Proof.
  intros a. split.
  - by destruct (valuation_only_reads (patched_share_price 160) a) as (? & _).
  - destruct (valuation_only_reads get_share_price a) as (_ & _ & _ & Hret).
    apply Hret. intros s q Hin. split.
    + intros e He. apply get_share_price_Raise in He as [_ ->]. by eexists.
    + assert (holdings a = [("GOOGL", 2)]) as Hholdings by (vm_compute; reflexivity).
      rewrite Hholdings in Hin. apply list_elem_of_singleton in Hin as [= -> ->].
      eexists. vm_compute. reflexivity.
Defined.
